(** * codesigningtool: resolution of a code-signing identity

    A shallow embedding of [tools/codesigningtool/codesigningtool.py] and the
    properties of its identity resolution.  The script is a thin wrapper: it
    reads a provisioning profile, fingerprints the certificates embedded in
    it, intersects them with the identities of the host keychain and hands
    over to the real [codesign] binary.

    Layout of the development:
    - [Text]: the Python 3 text primitives the script relies on
      ([bytes.strip], [bytes.decode], [str.replace], [str.splitlines] and the
      one regular expression it searches for);
    - [Py]: outcomes, recorded effects and the small monad that threads them;
    - the script itself, function by function, under the names of the source;
    - the properties. *)

From Stdlib Require Import NArith ZArith List Strings.Byte Lia.
From stdpp Require Import base list gmap sets strings.

Local Open Scope N_scope.

(** Python 3 [str] is a sequence of Unicode code points, [bytes] a sequence
    of octets. *)
Notation str := (list N).
Notation bytes := (list byte).

#[global] Instance byte_eq_decision : EqDecision byte := Byte.byte_eq_dec.

(** * Text primitives *)
Module Text.

(** Literals of the source, written as Rocq strings (ASCII only). *)
Definition lit (s : string) : str :=
  map Ascii.N_of_ascii (String.list_ascii_of_string s).

Definition blit (s : string) : bytes := String.list_byte_of_string s.

(** ** [bytes.strip()]

    Without argument it removes leading and trailing ASCII whitespace:
    space, [\t], [\n], [\v], [\f] and [\r]. *)
Definition is_space (b : byte) : bool :=
  let n := Byte.to_N b in
  ((9 <=? n) && (n <=? 13)) || (n =? 32).

Fixpoint lstrip (b : bytes) : bytes :=
  match b with
  | [] => []
  | c :: r => if is_space c then lstrip r else b
  end.

Definition rstrip (b : bytes) : bytes := rev (lstrip (rev b)).

Definition strip (b : bytes) : bytes := rstrip (lstrip b).

(** ** [bytes.decode("utf-8")]

    The strict decoder: shortest form only, no surrogates, nothing above
    U+10FFFF.  [None] stands for [UnicodeDecodeError]. *)
Definition is_cont (b : N) : bool := (0x80 <=? b) && (b <=? 0xBF).

Definition cont_bits (b : N) : N := N.land b 0x3F.

Fixpoint utf8 (b : list N) : option str :=
  match b with
  | [] => Some []
  | b0 :: r0 =>
    if b0 <? 0x80 then cons b0 <$> utf8 r0
    else if (0xC2 <=? b0) && (b0 <=? 0xDF) then
      match r0 with
      | b1 :: r1 =>
        if is_cont b1
        then cons (N.lor (N.shiftl (N.land b0 0x1F) 6) (cont_bits b1)) <$> utf8 r1
        else None
      | _ => None
      end
    else if (0xE0 <=? b0) && (b0 <=? 0xEF) then
      match r0 with
      | b1 :: b2 :: r2 =>
        let lo := if b0 =? 0xE0 then 0xA0 else 0x80 in
        let hi := if b0 =? 0xED then 0x9F else 0xBF in
        if (lo <=? b1) && (b1 <=? hi) && is_cont b2
        then cons (N.lor (N.shiftl (N.land b0 0x0F) 12)
                     (N.lor (N.shiftl (cont_bits b1) 6) (cont_bits b2)))
               <$> utf8 r2
        else None
      | _ => None
      end
    else if (0xF0 <=? b0) && (b0 <=? 0xF4) then
      match r0 with
      | b1 :: b2 :: b3 :: r3 =>
        let lo := if b0 =? 0xF0 then 0x90 else 0x80 in
        let hi := if b0 =? 0xF4 then 0x8F else 0xBF in
        if (lo <=? b1) && (b1 <=? hi) && is_cont b2 && is_cont b3
        then cons (N.lor (N.shiftl (N.land b0 0x07) 18)
                     (N.lor (N.shiftl (cont_bits b1) 12)
                        (N.lor (N.shiftl (cont_bits b2) 6) (cont_bits b3))))
               <$> utf8 r3
        else None
      | _ => None
      end
    else None
  end.

Definition decode (b : bytes) : option str := utf8 (map Byte.to_N b).

(** ** [str.replace(old, new)]

    All non-overlapping occurrences of [old], found from the left, are
    replaced.  [skip] counts the characters of a just-replaced occurrence
    that remain to be passed over.  The script only calls it with a
    non-empty [old]. *)
Fixpoint is_prefix (p s : str) : bool :=
  match p, s with
  | [], _ => true
  | _ :: _, [] => false
  | a :: p', b :: s' => (a =? b) && is_prefix p' s'
  end.

Fixpoint replace_from (old new : str) (skip : nat) (s : str) : str :=
  match s with
  | [] => []
  | c :: s' =>
    match skip with
    | S k => replace_from old new k s'
    | O =>
      if is_prefix old s
      then new ++ replace_from old new (pred (length old)) s'
      else c :: replace_from old new O s'
    end
  end.

Definition replace (old new s : str) : str := replace_from old new O s.

(** ** [str.splitlines()]

    Line boundaries of a [str]: [\n], [\r], [\r\n], [\v], [\f], the
    separators U+001C..U+001E, U+0085, U+2028 and U+2029.  The boundaries
    are dropped and a final boundary does not open an empty last line.
    [cur] is the line being read, most recent character first. *)
Definition is_linebreak (c : N) : bool :=
  ((0x0A <=? c) && (c <=? 0x0D)) || ((0x1C <=? c) && (c <=? 0x1E))
  || (c =? 0x85) || (c =? 0x2028) || (c =? 0x2029).

Fixpoint splitlines_from (cur : str) (s : str) : list str :=
  match s with
  | [] => match cur with [] => [] | _ => [rev cur] end
  | c :: s' =>
    if c =? 0x0D then
      match s' with
      | c' :: s'' =>
        if c' =? 0x0A then rev cur :: splitlines_from [] s''
        else rev cur :: splitlines_from [] s'
      | [] => rev cur :: splitlines_from [] s'
      end
    else if is_linebreak c then rev cur :: splitlines_from [] s'
    else splitlines_from (c :: cur) s'
  end.

Definition splitlines (s : str) : list str := splitlines_from [] s.

(** ** [re.search(r"([A-F0-9]{40})", line)]

    The pattern is one character class repeated a fixed number of times.
    [match_here] is the attempt at one start position, [search] tries the
    start positions from the left and keeps the first success, whose text
    is what [m.group(0)] returns. *)
Definition in_class (c : N) : bool :=
  ((0x41 <=? c) && (c <=? 0x46)) || ((0x30 <=? c) && (c <=? 0x39)).

Fixpoint match_here (cls : N -> bool) (n : nat) (s : str) : option str :=
  match n with
  | O => Some []
  | S n' =>
    match s with
    | c :: s' => if cls c then cons c <$> match_here cls n' s' else None
    | [] => None
    end
  end.

Fixpoint search (cls : N -> bool) (n : nat) (s : str) : option str :=
  match match_here cls n s with
  | Some m => Some m
  | None =>
    match s with
    | [] => None
    | _ :: s' => search cls n s'
    end
  end.

Definition re_search_fingerprint (line : str) : option str :=
  search in_class 40 line.

End Text.

(** * Outcomes, effects and the world outside the script *)
Module Py.

(** The exceptions that can leave the functions of the script. *)
Inductive exn : Type :=
| OSError
| CalledProcessError (returncode : Z)
| UnicodeDecodeError
| PlistError
| KeyError (key : str)
| TypeError
| AttributeError
| SystemExit (code : Z).

(** A call returns, raises, or never comes back because [os.execve]
    replaced the process image. *)
Inductive outcome (A : Type) : Type :=
| Returns (a : A)
| Raises (e : exn)
| Replaced.

Arguments Returns {A} a.
Arguments Raises {A} e.
Arguments Replaced {A}.

(** What the script does to the outside, in order.  Each event is a call
    with the Python arguments it received; [None] is Python's [None]. *)
Inductive event : Type :=
| Popen (args : list (option str)) (input : option bytes)
| PrintLine (line : str)
| Execve (path : option str) (argv : list (option str))
         (env : list (str * str)).

(** Result of [Popen(...).communicate(...)]: the program could not be
    started, or it ran to completion. *)
Inductive completed : Type :=
| NotStarted
| Exited (returncode : Z) (stdout stderr : bytes).

(** The [argparse.Namespace] built by the parser of [main]: each of the
    three options is a string, or [None] when it was not given. *)
Record Namespace : Type := {
  mobileprovision : option str;
  codesign : option str;
  identity : option str
}.

(** Values of a decoded property list. *)
Inductive plist : Type :=
| PlData (data : bytes)
| PlString (s : str)
| PlArray (items : list plist)
| PlDict (entries : gmap str plist)
| PlScalar.

(** Everything the script consumes and does not define: the command line,
    the two library parsers, the programs it starts and the kernel's
    [execve].  It is a snapshot: the script never changes it. *)
Record World : Type := {
  sys_argv : list str;
  os_environ : list (str * str);
  (** [ArgumentParser.parse_known_args] for the three options of [main]:
      the namespace and the unrecognised arguments, or [SystemExit]. *)
  parse_known_args : list str -> Z + Namespace * list str;
  (** [plistlib.readPlistFromString] / [readPlistFromBytes]. *)
  readPlist : bytes -> option plist;
  (** Running a program on a standard input to completion. *)
  run_process : list str -> option bytes -> completed;
  (** Whether the kernel accepts to replace the process image. *)
  can_exec : str -> list str -> bool
}.

(** A computation reads the world and produces an outcome and the events
    it caused. *)
Definition M (A : Type) : Type := World -> outcome A * list event.

Definition ret {A} (a : A) : M A := fun _ => (Returns a, []).

Definition raise {A} (e : exn) : M A := fun _ => (Raises e, []).

Definition emit (e : event) : M unit := fun _ => (Returns tt, [e]).

Definition ask : M World := fun w => (Returns w, []).

Definition handed_over {A} : M A := fun _ => (Replaced, []).

Definition bind {A B} (m : M A) (k : A -> M B) : M B :=
  fun w =>
    match m w with
    | (Returns a, t) => let (o, t') := k a w in (o, t ++ t')
    | (Raises e, t) => (Raises e, t)
    | (Replaced, t) => (Replaced, t)
    end.

Definition result {A} (m : M A) (w : World) : outcome A := fst (m w).

Definition trace {A} (m : M A) (w : World) : list event := snd (m w).

End Py.

Import Text Py.

(** [M] with stdpp's monad notations: [x ← m; k] runs [m], then [k]. *)
#[global] Instance M_ret : MRet M := @ret.
#[global] Instance M_bind : MBind M := fun A B k m => bind m k.

(** * The script *)

(** The three command lines of the script, as lists of source literals. *)
Definition security_cms_argv : list str :=
  map lit ["security"; "cms"; "-D"; "-i"].

Definition openssl_argv : list str :=
  map lit ["openssl"; "x509"; "-inform"; "DER"; "-noout"; "-fingerprint"].

Definition find_identity_argv : list str :=
  map lit ["security"; "find-identity"; "-v"; "-p"; "codesigning"].

(** [Popen(args, ...)] then [communicate(input)]: the exit status and the
    captured standard output.  [Popen] rejects an argument that is not a
    string with [TypeError] and raises [OSError] when the program cannot be
    started. *)
Definition communicate (args : list (option str)) (input : option bytes)
  : M (Z * bytes) :=
  _ ← emit (Popen args input);
  w ← ask;
  match mapM id args with
  | None => raise TypeError
  | Some argv =>
    match run_process w argv input with
    | NotStarted => raise OSError
    | Exited returncode stdout _ => ret (returncode, stdout)
    end
  end.

(** [subprocess.check_output(args)]: a non-zero exit status raises. *)
Definition subprocess_check_output (args : list (option str)) : M bytes :=
  '(returncode, stdout) ← communicate args None;
  if (returncode =? 0)%Z then ret stdout
  else raise (CalledProcessError returncode).

(** The script's own helper keeps [communicate(...)[0]] and never looks at
    the exit status. *)
Definition _check_output (args : list (option str)) (inputstr : option bytes)
  : M bytes :=
  '(_, stdout) ← communicate args inputstr;
  ret stdout.

Definition bytes_decode (b : bytes) : M str :=
  match decode b with
  | Some s => ret s
  | None => raise UnicodeDecodeError
  end.

Definition _parse_mobileprovision_file (mobileprovision_file : option str)
  : M plist :=
  plist_xml ← subprocess_check_output
                 ((Some <$> security_cms_argv) ++ [mobileprovision_file]);
  w ← ask;
  match readPlist w plist_xml with
  | Some mpf => ret mpf
  | None => raise PlistError
  end.

Definition fingerprint_label : str := lit "SHA1 Fingerprint=".

Definition colon : str := lit ":".

Definition _certificate_fingerprint (identity : bytes) : M str :=
  stdout ← _check_output (Some <$> openssl_argv) (Some identity);
  fingerprint ← bytes_decode (strip stdout);
  let fingerprint := replace fingerprint_label [] fingerprint in
  let fingerprint := replace colon [] fingerprint in
  ret fingerprint.

(** [mpf[key]], iteration over a value and the attribute [.data]. *)
Definition getitem (mpf : plist) (key : str) : M plist :=
  match mpf with
  | PlDict entries =>
    match entries !! key with
    | Some v => ret v
    | None => raise (KeyError key)
    end
  | _ => raise TypeError
  end.

Definition iter (v : plist) : M (list plist) :=
  match v with
  | PlArray items => ret items
  | PlString s => ret (map (fun c => PlString [c]) s)
  | PlDict entries => ret (map (fun kv => PlString (fst kv)) (map_to_list entries))
  | PlData _ | PlScalar => raise TypeError
  end.

Definition get_data (v : plist) : M bytes :=
  match v with
  | PlData data => ret data
  | _ => raise AttributeError
  end.

(** The generator: nothing runs when it is created.  Its first step looks
    the key up; afterwards each item is a suspended computation that the
    consumer runs when it asks for the next fingerprint. *)
Definition _get_identities_from_provisioning_profile (mpf : plist)
  : M (list (M str)) :=
  certificates ← getitem mpf (lit "DeveloperCertificates");
  items ← iter certificates;
  ret (map (fun identity =>
              data ← get_data identity;
              _certificate_fingerprint data) items).

Definition _find_codesign_identities : M (list str) :=
  stdout ← _check_output (Some <$> find_identity_argv) None;
  output ← bytes_decode (strip stdout);
  ret (fold_left
         (fun ids line =>
            match re_search_fingerprint line with
            | Some m => ids ++ [m]
            | None => ids
            end)
         (splitlines output) []).

(** The [for] loop of [_find_codesign_identity] over the generator: it
    returns at the first member of the set and leaves the remaining
    fingerprints uncomputed; falling off the end returns [None]. *)
Fixpoint first_member (ids_codesign : gset str) (identities : list (M str))
  : M (option str) :=
  match identities with
  | [] => ret None
  | next :: identities' =>
    id_mpf ← next;
    if bool_decide (id_mpf ∈ ids_codesign) then ret (Some id_mpf)
    else first_member ids_codesign identities'
  end.

Definition _find_codesign_identity (mobileprovision : option str)
  : M (option str) :=
  mpf ← _parse_mobileprovision_file mobileprovision;
  ids ← _find_codesign_identities;
  let ids_codesign : gset str := list_to_set ids in
  identities ← _get_identities_from_provisioning_profile mpf;
  first_member ids_codesign identities.

(** [print(line)] writes the line to standard output. *)
Definition print (line : str) : M unit := emit (PrintLine line).

(** ["%s" % v]. *)
Definition percent_s (v : option str) : str :=
  match v with
  | Some s => s
  | None => lit "None"
  end.

(** [os.execve(path, argv, os.environ)]: [TypeError] for an argument that
    is not a string, [OSError] when the kernel refuses; otherwise the
    process is replaced and nothing follows. *)
Definition os_execve {A} (path : option str) (argv : list (option str)) : M A :=
  w ← ask;
  _ ← emit (Execve path argv (os_environ w));
  match path, mapM id argv with
  | Some p, Some args =>
    if can_exec w p args then handed_over else raise OSError
  | _, _ => raise TypeError
  end.

Definition not_found_message (mobileprovision : option str) : str :=
  lit "Unable to find identity on the system matching the ones in "
  ++ percent_s mobileprovision.

(** [main] ignores its parameter: the parser reads [sys.argv[1:]].  The
    events are those of the script's own statements: what [argparse]
    writes by itself when it ends the run (the usage text of [--help], the
    message of a parse error) is not recorded. *)
Definition main (argv : list str) : M Z :=
  w ← ask;
  match parse_known_args w (tail (sys_argv w)) with
  | inl code => raise (SystemExit code)
  | inr (args, codesign_args) =>
    identity ← match identity args with
                | None => _find_codesign_identity (mobileprovision args)
                | Some override => ret (Some override)
                end;
    match identity with
    | None =>
      _ ← print (not_found_message (mobileprovision args));
      ret 1%Z
    | Some identity =>
      os_execve (codesign args)
        ([codesign args; Some (lit "-v"); Some (lit "--sign"); Some identity]
           ++ map Some codesign_args)
    end
  end.

(** [sys.exit(main(sys.argv))]. *)
Definition script : M Z :=
  w ← ask;
  main (sys_argv w).

(** The exit status of the interpreter; none when the process was handed
    over to the signing binary, whose status takes its place. *)
Definition exit_status (o : outcome Z) : option Z :=
  match o with
  | Returns code => Some code
  | Raises (SystemExit code) => Some code
  | Raises _ => Some 1%Z
  | Replaced => None
  end.

(** * Concrete hosts

    Small worlds on which the script can be run: a profile embedding two
    certificates, a keychain listing and a command line. *)
Module Scenario.

(** A reader of the command line for the three options in their
    [--name value] form; every other word is left over, in order. *)
Fixpoint read_options (args : list str) (ns : Namespace) (extras : list str)
  : Z + Namespace * list str :=
  match args with
  | [] => inr (ns, rev extras)
  | a :: rest =>
    if bool_decide (a = lit "--mobileprovision") then
      match rest with
      | v :: rest' =>
        read_options rest'
          {| mobileprovision := Some v; codesign := codesign ns;
             identity := identity ns |} extras
      | [] => inl 2%Z
      end
    else if bool_decide (a = lit "--codesign") then
      match rest with
      | v :: rest' =>
        read_options rest'
          {| mobileprovision := mobileprovision ns; codesign := Some v;
             identity := identity ns |} extras
      | [] => inl 2%Z
      end
    else if bool_decide (a = lit "--identity") then
      match rest with
      | v :: rest' =>
        read_options rest'
          {| mobileprovision := mobileprovision ns; codesign := codesign ns;
             identity := Some v |} extras
      | [] => inl 2%Z
      end
    else read_options rest ns (a :: extras)
  end.

Definition no_options : Namespace :=
  {| mobileprovision := None; codesign := None; identity := None |}.

Definition cert_x : bytes := blit "der-of-certificate-x".
Definition cert_y : bytes := blit "der-of-certificate-y".

Definition fp_x : str := lit "A1B2C3D4E5F60718293A4B5C6D7E8F9001122334".
Definition fp_y : str := lit "0F1E2D3C4B5A69788796A5B4C3D2E1F000112233".

Definition newline : bytes := ["010"%byte].

Definition openssl_x : bytes :=
  blit "SHA1 Fingerprint=A1:B2:C3:D4:E5:F6:07:18:29:3A:4B:5C:6D:7E:8F:90:01:12:23:34"
  ++ newline.
Definition openssl_y : bytes :=
  blit "SHA1 Fingerprint=0F:1E:2D:3C:4B:5A:69:78:87:96:A5:B4:C3:D2:E1:F0:00:11:22:33"
  ++ newline.

Definition profile : plist :=
  PlDict {[ lit "DeveloperCertificates" := PlArray [PlData cert_x; PlData cert_y] ]}.

Definition profile_path : str := lit "app.mobileprovision".

(** A host: [listing] is what [security find-identity] prints, [openssl]
    what the fingerprinting utility does with a certificate. *)
Definition host (argv : list str) (listing : bytes) (openssl : bytes -> completed)
  : World :=
  {| sys_argv := argv;
     os_environ := [(lit "PATH", lit "/usr/bin:/bin")];
     parse_known_args := fun args => read_options args no_options [];
     readPlist := fun _ => Some profile;
     run_process := fun args input =>
       if bool_decide (args = find_identity_argv) then Exited 0 listing []
       else if bool_decide (args = openssl_argv) then
         match input with
         | Some der => openssl der
         | None => Exited 1 [] (blit "unable to load certificate")
         end
       else if bool_decide (args = security_cms_argv ++ [profile_path])
       then Exited 0 (blit "<plist/>") []
       else NotStarted;
     can_exec := fun _ _ => true |}.

(** The fingerprinting utility on a sound installation. *)
Definition openssl_ok (der : bytes) : completed :=
  if bool_decide (der = cert_x) then Exited 0 openssl_x []
  else if bool_decide (der = cert_y) then Exited 0 openssl_y []
  else Exited 1 [] (blit "unable to load certificate").

(** The same utility when the first certificate of the profile is not
    valid DER: nothing on standard output, exit status 1. *)
Definition openssl_x_malformed (der : bytes) : completed :=
  if bool_decide (der = cert_y) then Exited 0 openssl_y []
  else Exited 1 [] (blit "unable to load certificate").

(** The utility is not installed. *)
Definition openssl_absent (der : bytes) : completed := NotStarted.

Definition listing_y : bytes :=
  blit "  1) 0F1E2D3C4B5A69788796A5B4C3D2E1F000112233 iPhone Developer: Jane Doe (ABCDE12345)"
  ++ newline ++ blit "     1 valid identities found" ++ newline.

Definition listing_xy : bytes :=
  blit "  1) 0F1E2D3C4B5A69788796A5B4C3D2E1F000112233 iPhone Developer: Jane Doe (ABCDE12345)"
  ++ newline ++
  blit "  2) A1B2C3D4E5F60718293A4B5C6D7E8F9001122334 iPhone Distribution: Example Corp"
  ++ newline ++ blit "     2 valid identities found" ++ newline.

(** A line whose hexadecimal run has 41 characters, and one whose run is
    in lowercase. *)
Definition long_line : str :=
  lit "  1) 0F1E2D3C4B5A69788796A5B4C3D2E1F0001122334 iPhone Developer: Jane Doe".

Definition lowercase_line : str :=
  lit "  1) 0f1e2d3c4b5a69788796a5b4c3d2e1f000112233 iPhone Developer: Jane Doe".

Definition listing_none : bytes :=
  blit "     0 valid identities found" ++ newline.

Definition argv_resolve : list str :=
  map lit ["codesigningtool.py"; "--codesign"; "/usr/bin/codesign";
           "--mobileprovision"; "app.mobileprovision";
           "--force"; "--timestamp=none"; "Payload/App.app"].

Definition argv_override (value : string) : list str :=
  map lit ["codesigningtool.py"; "--codesign"; "/usr/bin/codesign";
           "--mobileprovision"; "app.mobileprovision";
           "--identity"; value; "--force"; "Payload/App.app"].

Definition listing_yx : bytes :=
  blit "  1) A1B2C3D4E5F60718293A4B5C6D7E8F9001122334 iPhone Distribution: Example Corp"
  ++ newline ++
  blit "  2) 0F1E2D3C4B5A69788796A5B4C3D2E1F000112233 iPhone Developer: Jane Doe (ABCDE12345)"
  ++ newline ++ blit "     2 valid identities found" ++ newline.

(** The hosts of the examples.  The keychain of [both_known] lists the
    second certificate of the profile first; [both_known_reordered] has
    the same identities in the other order. *)
Definition second_known : World := host argv_resolve listing_y openssl_ok.
Definition both_known : World := host argv_resolve listing_xy openssl_ok.
Definition both_known_reordered : World := host argv_resolve listing_yx openssl_ok.
Definition none_known : World := host argv_resolve listing_none openssl_ok.
Definition first_malformed : World :=
  host argv_resolve listing_y openssl_x_malformed.
Definition no_openssl : World := host argv_resolve listing_y openssl_absent.
Definition with_override : World :=
  host (argv_override "iPhone Developer: Jane Doe (ABCDE12345)")
       listing_y openssl_ok.
Definition with_empty_override : World :=
  host (argv_override "") listing_y openssl_ok.

(** What the reader of the command line makes of the example invocations. *)
Definition resolve_options : Namespace :=
  {| mobileprovision := Some profile_path;
     codesign := Some (lit "/usr/bin/codesign");
     identity := None |}.

Definition override_options (value : string) : Namespace :=
  {| mobileprovision := Some profile_path;
     codesign := Some (lit "/usr/bin/codesign");
     identity := Some (lit value) |}.

(** The groups of digits that the utility prints for the first
    certificate. *)
Definition groups_x : list str :=
  map lit ["A1"; "B2"; "C3"; "D4"; "E5"; "F6"; "07"; "18"; "29"; "3A";
           "4B"; "5C"; "6D"; "7E"; "8F"; "90"; "01"; "12"; "23"; "34"].

End Scenario.

(** * Hosts on which something goes wrong *)
Module Failing.

(** A host given by what each of the programs does. *)
Definition host_of (argv : list str) (cms : completed) (mpf : option plist)
    (listing : completed) (openssl : bytes -> completed) : World :=
  {| sys_argv := argv;
     os_environ := [(lit "PATH", lit "/usr/bin:/bin")];
     parse_known_args := fun args =>
       Scenario.read_options args Scenario.no_options [];
     readPlist := fun _ => mpf;
     run_process := fun args input =>
       if bool_decide (args = find_identity_argv) then listing
       else if bool_decide (args = openssl_argv) then
         match input with
         | Some der => openssl der
         | None => Exited 1 [] (blit "unable to load certificate")
         end
       else if bool_decide (args = security_cms_argv ++ [Scenario.profile_path])
       then cms
       else NotStarted;
     can_exec := fun _ _ => true |}.

Definition cms_ok : completed := Exited 0 (blit "<plist/>") [].

Definition keychain_y : completed := Exited 0 Scenario.listing_y [].

(** The profile is not a signed container: [security cms] exits with 1. *)
Definition rejected_profile : World :=
  host_of Scenario.argv_resolve
    (Exited 1 [] (blit "security: failed to add data to decoder"))
    (Some Scenario.profile) keychain_y Scenario.openssl_ok.

(** The decoded profile has no [DeveloperCertificates] entry. *)
Definition entries_without_certificates : gmap str plist :=
  {[ lit "Name" := PlString (lit "Example Profile") ]}.

Definition profile_without_certificates : World :=
  host_of Scenario.argv_resolve cms_ok
    (Some (PlDict entries_without_certificates)) keychain_y Scenario.openssl_ok.

(** The keychain utility fails: exit status 1, nothing printed. *)
Definition silent_keychain : World :=
  host_of Scenario.argv_resolve cms_ok (Some Scenario.profile)
    (Exited 1 [] (blit "security: SecKeychainCopyDefault failed"))
    Scenario.openssl_ok.

(** The keychain utility is not installed. *)
Definition no_keychain_tool : World :=
  host_of Scenario.argv_resolve cms_ok (Some Scenario.profile)
    NotStarted Scenario.openssl_ok.

(** A fingerprinting utility that writes its label in lowercase. *)
Definition lowercase_label : str := lit "sha1 Fingerprint=".

Definition openssl_lowercase_label (der : bytes) : completed :=
  if bool_decide (der = Scenario.cert_x) then
    Exited 0
      (blit "sha1 Fingerprint=A1:B2:C3:D4:E5:F6:07:18:29:3A:4B:5C:6D:7E:8F:90:01:12:23:34"
       ++ Scenario.newline) []
  else Exited 1 [] (blit "unable to load certificate").

Definition relabelled_openssl : World :=
  host_of Scenario.argv_resolve cms_ok (Some Scenario.profile)
    (Exited 0 Scenario.listing_xy []) openssl_lowercase_label.

(** Command lines that leave an option out. *)
Definition no_codesign_option : World :=
  host_of (map lit ["codesigningtool.py"; "--identity"; "Jane Doe"; "--force"])
    cms_ok (Some Scenario.profile) keychain_y Scenario.openssl_ok.

Definition no_profile_option : World :=
  host_of (map lit ["codesigningtool.py"; "--codesign"; "/usr/bin/codesign"])
    cms_ok (Some Scenario.profile) keychain_y Scenario.openssl_ok.

End Failing.

(** * Vocabulary of the properties *)

(** The characters of the class, starting at the head of a string. *)
Fixpoint leading (cls : N -> bool) (s : str) : str :=
  match s with
  | c :: s' => if cls c then c :: leading cls s' else []
  | [] => []
  end.

(** The maximal runs of characters of a class, from the left.
    [split_runs] gives the run that starts at the head (empty when the
    head is outside the class) and the runs after it. *)
Fixpoint split_runs (cls : N -> bool) (s : str) : str * list str :=
  match s with
  | [] => ([], [])
  | c :: s' =>
    let '(r, rs) := split_runs cls s' in
    if cls c then (c :: r, rs)
    else ([], match r with [] => rs | _ => r :: rs end)
  end.

Definition runs (cls : N -> bool) (s : str) : list str :=
  let '(r, rs) := split_runs cls s in
  match r with [] => rs | _ => r :: rs end.

(** The runs of uppercase hexadecimal characters of a line. *)
Definition hex_runs (line : str) : list str := runs in_class line.

(** [sep.join(groups)]. *)
Fixpoint join (sep : str) (groups : list str) : str :=
  match groups with
  | [] => []
  | [g] => g
  | g :: gs => g ++ sep ++ join sep gs
  end.

(** Hexadecimal digits of either case, and the uppercase ones. *)
Definition hexdigits : str := lit "0123456789ABCDEFabcdef".
Definition upper_hexdigits : str := lit "0123456789ABCDEF".
Definition lower_hex_letters : str := lit "abcdef".

(** The fingerprint the resolver is meant to pick: the first one, in the
    order of the profile, that the host set contains. *)
Definition first_in (host : gset str) (fingerprints : list str) : option str :=
  head (filter (λ f, f ∈ host) fingerprints).

Definition is_execve (e : event) : bool :=
  match e with Execve _ _ _ => true | _ => false end.

Definition is_popen (e : event) : bool :=
  match e with Popen _ _ => true | _ => false end.

Definition is_print (e : event) : bool :=
  match e with PrintLine _ => true | _ => false end.

(** What [_check_output] hands back: the standard output of the program,
    whatever its exit status. *)
Definition captured (c : completed) : outcome bytes :=
  match c with
  | NotStarted => Raises OSError
  | Exited _ stdout _ => Returns stdout
  end.

(** Decoding and the two replacements, as [_certificate_fingerprint]
    chains them on the captured output. *)
Definition normalize (fingerprint : str) : str :=
  replace colon [] (replace fingerprint_label [] fingerprint).

Definition normalized (stdout : bytes) : outcome str :=
  match decode (strip stdout) with
  | Some s => Returns (normalize s)
  | None => Raises UnicodeDecodeError
  end.

(** The identities collected from the lines of a listing. *)
Definition collect (lines : list str) : list str :=
  fold_left
    (fun ids line =>
       match re_search_fingerprint line with
       | Some m => ids ++ [m]
       | None => ids
       end)
    lines [].

(** The [for] loop of the resolver over the certificates of a profile. *)
Definition scan_certs (host : gset str) (certs : list bytes) : M (option str) :=
  first_member host
    (map (fun identity =>
            data ← get_data identity;
            _certificate_fingerprint data) (PlData <$> certs)).

(** The profile at [mobileprovision] decodes, and embeds [certs] in this
    order under its [DeveloperCertificates] key. *)
Definition decodes_to (w : World) (mobileprovision : option str)
    (certs : list bytes) : Prop :=
  exists entries,
    result (_parse_mobileprovision_file mobileprovision) w
      = Returns (PlDict entries)
    /\ entries !! lit "DeveloperCertificates"
       = Some (PlArray (PlData <$> certs)).

(** The extractor yields [fps] for [certs], one by one. *)
Definition fingerprints_of (w : World) (certs : list bytes) (fps : list str)
  : Prop :=
  Forall2 (fun der f => result (_certificate_fingerprint der) w = Returns f)
          certs fps.

(** The keychain query lists [ids], in this order. *)
Definition lists_identities (w : World) (ids : list str) : Prop :=
  result _find_codesign_identities w = Returns ids.



(** The argument vector [main] builds for the signing binary. *)
Definition signing_argv (args : Namespace) (identity : str)
    (codesign_args : list str) : list (option str) :=
  [codesign args; Some (lit "-v"); Some (lit "--sign"); Some identity]
    ++ map Some codesign_args.

(** A computation that only starts programs. *)
Definition only_popen {A} (m : M A) : Prop :=
  forall w, Forall (fun e => is_popen e = true) (trace m w).

(** The calls of the fingerprinting utility for a list of certificates. *)
Definition openssl_calls (certs : list bytes) : list event :=
  map (fun der => Popen (Some <$> openssl_argv) (Some der)) certs.

(** A computation that cannot replace the process. *)
Definition no_handoff {A} (m : M A) : Prop :=
  forall w, result m w <> Replaced.

(** * Reasoning about computations *)

Lemma result_bind {A B} (m : M A) (k : A -> M B) (w : World) :
  result (m ≫= k) w =
  match result m w with
  | Returns a => result (k a) w
  | Raises e => Raises e
  | Replaced => Replaced
  end.
Proof.
  unfold result, mbind, M_bind, bind.
  destruct (m w) as [[a | e |] t]; simpl; try reflexivity.
  destruct (k a w); reflexivity.
Qed.

Lemma trace_bind {A B} (m : M A) (k : A -> M B) (w : World) :
  trace (m ≫= k) w =
  trace m w ++ match result m w with
               | Returns a => trace (k a) w
               | _ => []
               end.
Proof.
  unfold result, trace, mbind, M_bind, bind.
  destruct (m w) as [[a | e |] t]; simpl; try (rewrite app_nil_r; reflexivity).
  destruct (k a w); reflexivity.
Qed.

Lemma result_ret {A} (a : A) w : result (ret a) w = Returns a.
Proof. reflexivity. Qed.

Lemma trace_ret {A} (a : A) w : trace (ret a) w = [].
Proof. reflexivity. Qed.

Lemma result_raise {A} e w : result (@raise A e) w = Raises e.
Proof. reflexivity. Qed.

Lemma trace_raise {A} e w : trace (@raise A e) w = [].
Proof. reflexivity. Qed.

Lemma result_ask w : result ask w = Returns w.
Proof. reflexivity. Qed.

Lemma trace_ask w : trace ask w = [].
Proof. reflexivity. Qed.

Lemma result_emit e w : result (emit e) w = Returns tt.
Proof. reflexivity. Qed.

Lemma trace_emit e w : trace (emit e) w = [e].
Proof. reflexivity. Qed.

(** Rewriting with these equations runs a computation symbolically. *)
Ltac step :=
  repeat first
    [ rewrite result_bind | rewrite trace_bind
    | rewrite result_ret | rewrite trace_ret
    | rewrite result_raise | rewrite trace_raise
    | rewrite result_ask | rewrite trace_ask
    | rewrite result_emit | rewrite trace_emit ];
  simpl.

(** * The regular expression *)
Section Matching.
Variable cls : N -> bool.

Lemma match_here_leading n s :
  match_here cls n s =
  if (n <=? length (leading cls s))%nat then Some (take n (leading cls s))
  else None.
Proof.
  revert s; induction n as [|n IH]; intros s; simpl.
  - reflexivity.
  - destruct s as [|c s']; simpl; [reflexivity|].
    destruct (cls c); simpl; [|reflexivity].
    rewrite IH.
    destruct (n <=? length (leading cls s'))%nat; reflexivity.
Qed.

Lemma leading_class s : Forall (λ c, cls c = true) (leading cls s).
Proof.
  induction s as [|c s' IH]; simpl; [constructor|].
  destruct (cls c) eqn:Hc; constructor; assumption.
Qed.

Lemma match_here_sound n s m :
  match_here cls n s = Some m ->
  length m = n /\ Forall (λ c, cls c = true) m /\ m = take n s.
Proof.
  revert s m; induction n as [|n IH]; intros s m; simpl.
  - intros [= <-]. repeat split. constructor.
  - destruct s as [|c s']; [discriminate|].
    destruct (cls c) eqn:Hc; [|discriminate].
    destruct (match_here cls n s') as [m'|] eqn:Hm; [|discriminate].
    simpl. intros [= <-].
    destruct (IH _ _ Hm) as (Hlen & Hall & Htake).
    simpl. repeat split; [congruence|constructor; assumption|congruence].
Qed.

Lemma search_sound n s m :
  search cls n s = Some m ->
  length m = n /\ Forall (λ c, cls c = true) m.
Proof.
  induction s as [|c s' IH]; simpl.
  - destruct (match_here cls n []) as [m'|] eqn:Hm; [|discriminate].
    intros [= <-]. apply match_here_sound in Hm. tauto.
  - destruct (match_here cls n (c :: s')) as [m'|] eqn:Hm.
    + intros [= <-]. apply match_here_sound in Hm. tauto.
    + exact IH.
Qed.

Lemma split_runs_leading s : (split_runs cls s).1 = leading cls s.
Proof.
  induction s as [|c s' IH]; simpl; [reflexivity|].
  destruct (split_runs cls s') as [r rs]; simpl in *.
  destruct (cls c); simpl; congruence.
Qed.

(** The scan against the runs: the leading run when it is long enough,
    otherwise the first later run that is. *)
Lemma search_split_runs n s :
  (0 < n)%nat ->
  search cls n s =
  let '(r, rs) := split_runs cls s in
  if (n <=? length r)%nat then Some (take n r)
  else take n <$> List.find (λ r, (n <=? length r)%nat) rs.
Proof.
  intros Hn. induction s as [|c s' IH].
  - simpl. destruct n; [lia|reflexivity].
  - cbn [search]. rewrite match_here_leading.
    pose proof (split_runs_leading s') as Hlead.
    cbn [split_runs leading].
    destruct (split_runs cls s') as [r rs]; simpl in Hlead; subst r.
    destruct (cls c) eqn:Hc.
    + cbn [length].
      destruct (n <=? S (length (leading cls s')))%nat eqn:Hle; [reflexivity|].
      rewrite IH.
      apply Nat.leb_gt in Hle.
      destruct (n <=? length (leading cls s'))%nat eqn:Hle'; [|reflexivity].
      apply Nat.leb_le in Hle'. lia.
    + cbn [length].
      destruct (n <=? 0)%nat eqn:H0; [apply Nat.leb_le in H0; lia|].
      rewrite IH.
      destruct (leading cls s') as [|a r'] eqn:Hr.
      * simpl. rewrite H0. reflexivity.
      * cbn [List.find]. destruct (n <=? length (a :: r'))%nat; reflexivity.
Qed.

Lemma search_runs n s :
  (0 < n)%nat ->
  search cls n s = take n <$> List.find (λ r, (n <=? length r)%nat) (runs cls s).
Proof.
  intros Hn. rewrite (search_split_runs n s Hn). unfold runs.
  destruct (split_runs cls s) as [r rs].
  destruct r as [|a r'].
  - simpl. destruct (n <=? 0)%nat eqn:H0; [apply Nat.leb_le in H0; lia|reflexivity].
  - cbn [List.find]. destruct (n <=? length (a :: r'))%nat; reflexivity.
Qed.

(** [runs] does cut a string at the characters outside the class: a block
    of class characters that is followed by none is one run, and a prefix
    that ends outside the class contributes its own runs. *)
Lemma split_runs_outside s :
  (forall c, head s = Some c -> cls c = false) ->
  split_runs cls s = ([], runs cls s).
Proof.
  destruct s as [|c s']; intros Hhead; [reflexivity|].
  unfold runs. cbn [split_runs].
  destruct (split_runs cls s') as [r rs].
  rewrite (Hhead c eq_refl). reflexivity.
Qed.

Lemma split_runs_block r post :
  Forall (fun c => cls c = true) r ->
  (forall c, head post = Some c -> cls c = false) ->
  split_runs cls (r ++ post) = (r, runs cls post).
Proof.
  intros Hr Hpost. induction Hr as [|c r Hc _ IH].
  - apply split_runs_outside. assumption.
  - change ((c :: r) ++ post) with (c :: (r ++ post)).
    cbn [split_runs]. rewrite IH, Hc. reflexivity.
Qed.

Lemma runs_block r post :
  r <> [] ->
  Forall (fun c => cls c = true) r ->
  (forall c, head post = Some c -> cls c = false) ->
  runs cls (r ++ post) = r :: runs cls post.
Proof.
  intros Hne Hr Hpost. unfold runs at 1.
  rewrite (split_runs_block r post Hr Hpost).
  destruct r; [congruence|reflexivity].
Qed.

Lemma split_runs_cons c s :
  split_runs cls (c :: s) =
  let '(r, rs) := split_runs cls s in
  if cls c then (c :: r, rs)
  else ([], match r with [] => rs | _ => r :: rs end).
Proof. reflexivity. Qed.

Lemma split_runs_app pre s :
  pre <> [] ->
  (forall c, last pre = Some c -> cls c = false) ->
  split_runs cls (pre ++ s)
  = ((split_runs cls pre).1, (split_runs cls pre).2 ++ runs cls s).
Proof.
  induction pre as [|c pre IH]; intros Hne Hlast; [congruence|].
  change ((c :: pre) ++ s) with (c :: (pre ++ s)).
  destruct (decide (pre = [])) as [->|Hpre].
  - simpl in Hlast. specialize (Hlast c eq_refl).
    cbn [app split_runs]. unfold runs.
    destruct (split_runs cls s) as [r rs]. rewrite Hlast. reflexivity.
  - rewrite !split_runs_cons, IH; [|exact Hpre|].
    + destruct (split_runs cls pre) as [r rs]. cbn [fst snd].
      destruct (cls c); [reflexivity|]. destruct r; reflexivity.
    + intros c0 Hc0. apply Hlast. destruct pre; [congruence|exact Hc0].
Qed.

Lemma runs_app pre s :
  (forall c, last pre = Some c -> cls c = false) ->
  runs cls (pre ++ s) = runs cls pre ++ runs cls s.
Proof.
  intros Hlast. destruct pre as [|c pre']; [reflexivity|].
  unfold runs at 1 2. rewrite split_runs_app; [|discriminate|exact Hlast].
  destruct (split_runs cls (c :: pre')) as [r rs]. cbn [fst snd].
  destruct r; reflexivity.
Qed.

End Matching.

(** * Replacement *)
Section Replace.
Variables old new : str.

Lemma is_prefix_app s : is_prefix old (old ++ s) = true.
Proof.
  induction old as [|a p IH]; simpl; [reflexivity|].
  rewrite N.eqb_refl. exact IH.
Qed.

Lemma replace_from_skip l s :
  replace_from old new (length l) (l ++ s) = replace_from old new O s.
Proof. induction l as [|a l IH]; simpl; [reflexivity|exact IH]. Qed.

End Replace.

(** An occurrence at the head is replaced and the scan resumes after it. *)
Lemma replace_head a p new s :
  replace (a :: p) new ((a :: p) ++ s) = new ++ replace (a :: p) new s.
Proof.
  unfold replace.
  pose proof (is_prefix_app (a :: p) s) as Hp.
  change ((a :: p) ++ s) with (a :: (p ++ s)) in *.
  cbn [replace_from]. rewrite Hp. simpl length. simpl pred.
  rewrite replace_from_skip. reflexivity.
Qed.

(** Text without the first character of [old] has no occurrence of it. *)
Lemma replace_absent a old new s :
  a ∉ s -> replace (a :: old) new s = s.
Proof.
  unfold replace. induction s as [|c s' IH]; intros Hin; [reflexivity|].
  apply not_elem_of_cons in Hin as [Hne Hin].
  cbn [replace_from is_prefix].
  destruct (a =? c) eqn:Heq; [apply N.eqb_eq in Heq; congruence|].
  simpl. rewrite IH by assumption. reflexivity.
Qed.

(** Deleting a single character distributes over concatenation. *)
Lemma replace_char_app a s1 s2 :
  replace [a] [] (s1 ++ s2) = replace [a] [] s1 ++ replace [a] [] s2.
Proof.
  unfold replace. induction s1 as [|c s1 IH]; [reflexivity|].
  change ((c :: s1) ++ s2) with (c :: (s1 ++ s2)).
  cbn [replace_from is_prefix].
  destruct (a =? c); simpl; rewrite IH; reflexivity.
Qed.

Lemma replace_char_self a : replace [a] [] [a] = [].
Proof. unfold replace. simpl. rewrite N.eqb_refl. reflexivity. Qed.

Lemma replace_char_join a groups :
  Forall (λ g, a ∉ g) groups ->
  replace [a] [] (join [a] groups) = concat groups.
Proof.
  induction groups as [|g gs IH]; intros Hall; [reflexivity|].
  apply Forall_cons in Hall as [Hg Hgs].
  destruct gs as [|g' gs'].
  - simpl. rewrite app_nil_r. apply replace_absent. assumption.
  - change (join [a] (g :: g' :: gs')) with (g ++ [a] ++ join [a] (g' :: gs')).
    rewrite !replace_char_app, replace_char_self, IH by assumption.
    rewrite replace_absent by assumption. reflexivity.
Qed.

(** * Character classes *)
Lemma in_class_upper_hexdigits c :
  in_class c = true <-> c ∈ upper_hexdigits.
Proof.
  unfold in_class, upper_hexdigits. cbn.
  rewrite !elem_of_cons, elem_of_nil.
  rewrite orb_true_iff, !andb_true_iff, !N.leb_le. lia.
Qed.

Lemma upper_not_lower c : c ∈ upper_hexdigits -> c ∉ lower_hex_letters.
Proof.
  unfold upper_hexdigits, lower_hex_letters. cbn.
  rewrite !elem_of_cons, !elem_of_nil. lia.
Qed.

Lemma hexdigit_not_colon c : c ∈ hexdigits -> c ∉ colon.
Proof.
  unfold hexdigits, colon. cbn. rewrite !elem_of_cons, !elem_of_nil. lia.
Qed.

Lemma hexdigit_not_S c : c ∈ hexdigits -> c <> 83.
Proof.
  unfold hexdigits. cbn. rewrite !elem_of_cons, !elem_of_nil. lia.
Qed.

(** * The text primitives on small inputs *)

Example strip_removes_ascii_whitespace :
  strip (blit "  SHA1 Fingerprint=AB:CD " ++ ["010"%byte])
  = blit "SHA1 Fingerprint=AB:CD".
Proof. reflexivity. Qed.

Example decode_ascii : decode (blit "AB:CD") = Some (lit "AB:CD").
Proof. reflexivity. Qed.

Example decode_three_bytes :
  decode ["226"%byte; "130"%byte; "172"%byte] = Some [0x20AC].
Proof. reflexivity. Qed.

Example decode_rejects_overlong :
  decode ["192"%byte; "128"%byte] = None.
Proof. reflexivity. Qed.

Example decode_rejects_surrogate :
  decode ["237"%byte; "160"%byte; "128"%byte] = None.
Proof. reflexivity. Qed.

Example replace_is_not_overlapping :
  replace (lit "aa") (lit "b") (lit "aaaaa") = lit "bba".
Proof. reflexivity. Qed.

Example splitlines_boundaries :
  splitlines (lit "one" ++ [0x0D; 0x0A] ++ lit "two" ++ [0x0A; 0x0A]
              ++ lit "three" ++ [0x0D] ++ lit "four" ++ [0x0A])
  = [lit "one"; lit "two"; []; lit "three"; lit "four"].
Proof. reflexivity. Qed.

Example hex_runs_of_a_listing_line :
  hex_runs (lit "  1) 0F1E2D3C4B5A69788796A5B4C3D2E1F000112233 Dev (AB12)")
  = [lit "1"; lit "0F1E2D3C4B5A69788796A5B4C3D2E1F000112233"; lit "D";
     lit "AB12"].
Proof. reflexivity. Qed.

(** * The helpers around the external programs *)

Lemma mapM_id_Some {A} (l : list A) : mapM id (Some <$> l) = Some l.
Proof.
  induction l as [|a l IH]; [reflexivity|].
  cbn. cbn in IH. rewrite IH. reflexivity.
Qed.

Lemma check_output_result w argv input :
  result (_check_output (Some <$> argv) input) w
  = captured (run_process w argv input).
Proof.
  unfold _check_output, communicate. step.
  rewrite mapM_id_Some.
  destruct (run_process w argv input); reflexivity.
Qed.

Lemma check_output_trace w argv input :
  trace (_check_output (Some <$> argv) input) w = [Popen (Some <$> argv) input].
Proof.
  unfold _check_output, communicate. step.
  rewrite mapM_id_Some.
  destruct (run_process w argv input); reflexivity.
Qed.

Lemma certificate_fingerprint_result w der :
  result (_certificate_fingerprint der) w =
  match run_process w openssl_argv (Some der) with
  | NotStarted => Raises OSError
  | Exited _ stdout _ => normalized stdout
  end.
Proof.
  unfold _certificate_fingerprint. rewrite result_bind, check_output_result.
  destruct (run_process w openssl_argv (Some der)) as [|rc out err]; simpl;
    [reflexivity|].
  unfold normalized, bytes_decode. step.
  destruct (decode (strip out)); reflexivity.
Qed.

Lemma certificate_fingerprint_trace w der :
  trace (_certificate_fingerprint der) w
  = [Popen (Some <$> openssl_argv) (Some der)].
Proof.
  unfold _certificate_fingerprint.
  rewrite trace_bind, check_output_trace, check_output_result.
  destruct (run_process w openssl_argv (Some der)) as [|rc out err]; simpl;
    [reflexivity|].
  unfold bytes_decode. step.
  destruct (decode (strip out)); reflexivity.
Qed.

Lemma find_codesign_identities_result w :
  result _find_codesign_identities w =
  match run_process w find_identity_argv None with
  | NotStarted => Raises OSError
  | Exited _ stdout _ =>
    match decode (strip stdout) with
    | Some output => Returns (collect (splitlines output))
    | None => Raises UnicodeDecodeError
    end
  end.
Proof.
  unfold _find_codesign_identities. rewrite result_bind, check_output_result.
  destruct (run_process w find_identity_argv None) as [|rc out err]; simpl;
    [reflexivity|].
  unfold bytes_decode. step.
  destruct (decode (strip out)); reflexivity.
Qed.

Lemma find_codesign_identities_trace w :
  trace _find_codesign_identities w = [Popen (Some <$> find_identity_argv) None].
Proof.
  unfold _find_codesign_identities.
  rewrite trace_bind, check_output_trace, check_output_result.
  destruct (run_process w find_identity_argv None) as [|rc out err]; simpl;
    [reflexivity|].
  unfold bytes_decode. step.
  destruct (decode (strip out)); reflexivity.
Qed.

Lemma collect_from_scan (P : str -> Prop) lines :
  (forall line m, re_search_fingerprint line = Some m -> P m) ->
  Forall P (collect lines).
Proof.
  intros Hscan. unfold collect.
  assert (Hgen : forall acc, Forall P acc ->
            Forall P (fold_left
              (fun ids line =>
                 match re_search_fingerprint line with
                 | Some m => ids ++ [m]
                 | None => ids
                 end) lines acc)).
  { induction lines as [|line lines IH]; intros acc Hacc; [exact Hacc|].
    simpl. apply IH.
    destruct (re_search_fingerprint line) as [m|] eqn:Hm; [|exact Hacc].
    apply Forall_app. split; [exact Hacc|].
    constructor; [eapply Hscan; eassumption|constructor]. }
  apply Hgen. constructor.
Qed.

Lemma collect_fingerprints lines :
  Forall (λ s, length s = 40%nat /\ Forall (λ c, in_class c = true) s)
         (collect lines).
Proof.
  apply collect_from_scan. intros line m Hm.
  apply search_sound in Hm. exact Hm.
Qed.

(** Lines without a match are passed over; the others contribute their
    match, in the order of the lines. *)
Lemma collect_omap lines : collect lines = omap re_search_fingerprint lines.
Proof.
  unfold collect.
  assert (Hgen : forall acc,
            fold_left
              (fun ids line =>
                 match re_search_fingerprint line with
                 | Some m => ids ++ [m]
                 | None => ids
                 end) lines acc
            = acc ++ omap re_search_fingerprint lines).
  { induction lines as [|line lines IH]; intros acc; simpl.
    - rewrite app_nil_r. reflexivity.
    - rewrite IH. destruct (re_search_fingerprint line) as [m|]; simpl;
        [rewrite <- app_assoc|]; reflexivity. }
  apply Hgen.
Qed.

(** The keychain query never lists the empty string. *)
Lemma find_codesign_identities_nonempty w ids :
  result _find_codesign_identities w = Returns ids -> [] ∉ ids.
Proof.
  rewrite find_codesign_identities_result.
  destruct (run_process w find_identity_argv None) as [|rc out err]; [discriminate|].
  destruct (decode (strip out)) as [output|]; [|discriminate].
  intros [= <-] Hin.
  pose proof (collect_fingerprints (splitlines output)) as Hall.
  rewrite Forall_forall in Hall. apply Hall in Hin as [Hlen _]. discriminate.
Qed.

(** * The resolver *)

Lemma first_in_nil host : first_in host [] = None.
Proof. reflexivity. Qed.

Lemma first_in_cons host f fps :
  first_in host (f :: fps)
  = if bool_decide (f ∈ host) then Some f else first_in host fps.
Proof.
  unfold first_in. rewrite filter_cons.
  destruct (decide (f ∈ host)) as [Hin|Hin].
  - rewrite bool_decide_eq_true_2 by assumption. reflexivity.
  - rewrite bool_decide_eq_false_2 by assumption. reflexivity.
Qed.

Lemma first_in_skip host pre y post :
  y ∉ host -> first_in host (pre ++ y :: post) = first_in host (pre ++ post).
Proof.
  intros Hy. induction pre as [|f pre IH]; simpl.
  - rewrite first_in_cons, bool_decide_eq_false_2 by assumption. reflexivity.
  - rewrite !first_in_cons, IH. reflexivity.
Qed.

Lemma first_in_hit host pre x post :
  (forall y, y ∈ pre -> y ∉ host) -> x ∈ host ->
  first_in host (pre ++ x :: post) = Some x.
Proof.
  intros Hpre Hx. induction pre as [|f pre IH]; simpl.
  - rewrite first_in_cons, bool_decide_eq_true_2 by assumption. reflexivity.
  - rewrite first_in_cons, bool_decide_eq_false_2.
    + apply IH. intros y Hy. apply Hpre. right. assumption.
    + apply Hpre. left.
Qed.

Lemma first_in_none host fps :
  (forall f, f ∈ fps -> f ∉ host) -> first_in host fps = None.
Proof.
  induction fps as [|f fps IH]; intros Hall; [reflexivity|].
  rewrite first_in_cons, bool_decide_eq_false_2.
  - apply IH. intros y Hy. apply Hall. right. assumption.
  - apply Hall. left.
Qed.

Lemma scan_certs_nil host w : scan_certs host [] w = (Returns None, []).
Proof. reflexivity. Qed.

(** One turn of the loop: the fingerprint is computed, then tested. *)
Lemma scan_certs_cons_result host der certs w :
  result (scan_certs host (der :: certs)) w =
  match result (_certificate_fingerprint der) w with
  | Returns f =>
    if bool_decide (f ∈ host) then Returns (Some f)
    else result (scan_certs host certs) w
  | Raises e => Raises e
  | Replaced => Replaced
  end.
Proof.
  unfold scan_certs. cbn [fmap list_fmap map first_member].
  rewrite !result_bind. cbn [get_data]. rewrite result_ret.
  destruct (result (_certificate_fingerprint der) w) as [f|e|]; try reflexivity.
  destruct (bool_decide (f ∈ host)); reflexivity.
Qed.

Lemma scan_certs_cons_trace host der certs w :
  trace (scan_certs host (der :: certs)) w =
  Popen (Some <$> openssl_argv) (Some der) ::
  match result (_certificate_fingerprint der) w with
  | Returns f =>
    if bool_decide (f ∈ host) then [] else trace (scan_certs host certs) w
  | _ => []
  end.
Proof.
  unfold scan_certs. cbn [fmap list_fmap map first_member].
  rewrite !trace_bind, !result_bind. cbn [get_data].
  rewrite result_ret, trace_ret. cbn [app].
  rewrite certificate_fingerprint_trace. cbn [app].
  destruct (result (_certificate_fingerprint der) w) as [f|e|]; try reflexivity.
  destruct (bool_decide (f ∈ host)); reflexivity.
Qed.

(** When every certificate has a fingerprint, the loop computes
    [first_in]. *)
Lemma scan_certs_all host w certs fps :
  fingerprints_of w certs fps ->
  result (scan_certs host certs) w = Returns (first_in host fps).
Proof.
  induction 1 as [|der f certs fps Hf _ IH]; [reflexivity|].
  rewrite scan_certs_cons_result, Hf, first_in_cons, IH.
  destruct (bool_decide (f ∈ host)); reflexivity.
Qed.

(** Certificates whose fingerprints are unknown to the host are passed. *)
Lemma scan_certs_skip host w cpre fpre rest :
  fingerprints_of w cpre fpre ->
  (forall f, f ∈ fpre -> f ∉ host) ->
  result (scan_certs host (cpre ++ rest)) w = result (scan_certs host rest) w.
Proof.
  induction 1 as [|der f cpre fpre Hf _ IH]; intros Hout; [reflexivity|].
  change ((der :: cpre) ++ rest) with (der :: (cpre ++ rest)).
  rewrite scan_certs_cons_result, Hf, bool_decide_eq_false_2.
  - apply IH. intros y Hy. apply Hout. right. assumption.
  - apply Hout. left.
Qed.

(** The generator over a well-formed profile. *)
Lemma get_identities_run w entries items :
  entries !! lit "DeveloperCertificates" = Some (PlArray items) ->
  _get_identities_from_provisioning_profile (PlDict entries) w
  = (Returns (map (fun identity =>
                     data ← get_data identity;
                     _certificate_fingerprint data) items), []).
Proof.
  intros Hkey. unfold _get_identities_from_provisioning_profile.
  unfold mbind, M_bind, bind, getitem. rewrite Hkey. reflexivity.
Qed.

(** With the profile decoded and the keychain listed, the resolver is its
    loop. *)
Lemma find_codesign_identity_result w mobileprovision certs ids :
  decodes_to w mobileprovision certs ->
  lists_identities w ids ->
  result (_find_codesign_identity mobileprovision) w
  = result (scan_certs (list_to_set ids) certs) w.
Proof.
  intros (entries & Hparse & Hkey) Hids.
  unfold _find_codesign_identity.
  rewrite result_bind, Hparse, result_bind, Hids, result_bind.
  unfold result at 1. rewrite (get_identities_run _ _ _ Hkey). reflexivity.
Qed.

Lemma find_codesign_identity_trace w mobileprovision certs ids :
  decodes_to w mobileprovision certs ->
  lists_identities w ids ->
  trace (_find_codesign_identity mobileprovision) w
  = trace (_parse_mobileprovision_file mobileprovision) w
    ++ Popen (Some <$> find_identity_argv) None
    :: trace (scan_certs (list_to_set ids) certs) w.
Proof.
  intros (entries & Hparse & Hkey) Hids.
  unfold _find_codesign_identity.
  rewrite trace_bind, Hparse, trace_bind, Hids, trace_bind.
  rewrite find_codesign_identities_trace.
  unfold result at 1, trace at 2. rewrite (get_identities_run _ _ _ Hkey).
  reflexivity.
Qed.

(** * Effects of the resolver: programs are started, nothing else *)

Lemma only_popen_ret {A} (a : A) : only_popen (ret a).
Proof. intros w. constructor. Qed.

Lemma only_popen_raise {A} e : only_popen (@raise A e).
Proof. intros w. constructor. Qed.

Lemma only_popen_ask : only_popen ask.
Proof. intros w. constructor. Qed.

Lemma only_popen_emit args input : only_popen (emit (Popen args input)).
Proof. intros w. repeat constructor. Qed.

Lemma only_popen_bind {A B} (m : M A) (k : A -> M B) :
  only_popen m -> (forall a, only_popen (k a)) -> only_popen (m ≫= k).
Proof.
  intros Hm Hk w. rewrite trace_bind. apply Forall_app. split; [apply Hm|].
  destruct (result m w); [apply Hk|constructor|constructor].
Qed.

Create HintDb popen.
#[local] Hint Resolve only_popen_ret only_popen_raise only_popen_ask
  only_popen_emit : popen.

Ltac popen :=
  repeat first
    [ solve [auto with popen]
    | apply only_popen_bind; [|intros ?]
    | match goal with
      | |- only_popen (match ?x with _ => _ end) => destruct x
      | |- only_popen (let '(_, _) := ?x in _) => destruct x
      | |- only_popen (if ?b then _ else _) => destruct b
      end ].

Lemma only_popen_communicate args input : only_popen (communicate args input).
Proof. unfold communicate. popen. Qed.

Lemma only_popen_check_output args input : only_popen (_check_output args input).
Proof. unfold _check_output. pose proof only_popen_communicate. popen. Qed.

Lemma only_popen_subprocess_check_output args :
  only_popen (subprocess_check_output args).
Proof. unfold subprocess_check_output. pose proof only_popen_communicate. popen. Qed.

Lemma only_popen_bytes_decode b : only_popen (bytes_decode b).
Proof. unfold bytes_decode. popen. Qed.

Lemma only_popen_parse f : only_popen (_parse_mobileprovision_file f).
Proof.
  unfold _parse_mobileprovision_file.
  pose proof only_popen_subprocess_check_output. popen.
Qed.

Lemma only_popen_fingerprint der : only_popen (_certificate_fingerprint der).
Proof.
  unfold _certificate_fingerprint.
  pose proof only_popen_check_output. pose proof only_popen_bytes_decode. popen.
Qed.

Lemma only_popen_identities : only_popen _find_codesign_identities.
Proof.
  unfold _find_codesign_identities.
  pose proof only_popen_check_output. pose proof only_popen_bytes_decode. popen.
Qed.

Lemma only_popen_item identity :
  only_popen (data ← get_data identity; _certificate_fingerprint data).
Proof. pose proof only_popen_fingerprint. unfold get_data. popen. Qed.

Lemma only_popen_first_member host identities :
  Forall only_popen identities -> only_popen (first_member host identities).
Proof.
  induction 1 as [|next identities Hnext _ IH]; simpl; popen.
Qed.

(** The generator itself is silent and every fingerprint it suspends only
    starts the fingerprinting utility. *)
Lemma get_identities_silent mpf w :
  trace (_get_identities_from_provisioning_profile mpf) w = [].
Proof.
  unfold trace, _get_identities_from_provisioning_profile, getitem, iter.
  unfold mbind, M_bind, bind.
  destruct mpf as [data|s|items|entries|]; try reflexivity.
  destruct (entries !! lit "DeveloperCertificates") as [v|]; [|reflexivity].
  destruct v; reflexivity.
Qed.

Lemma get_identities_items mpf w identities :
  result (_get_identities_from_provisioning_profile mpf) w = Returns identities ->
  Forall only_popen identities.
Proof.
  unfold result, _get_identities_from_provisioning_profile, getitem, iter.
  unfold mbind, M_bind, bind.
  destruct mpf as [data|s|items|entries|]; try discriminate.
  destruct (entries !! lit "DeveloperCertificates") as [v|]; [|discriminate].
  destruct v; try discriminate; simpl; intros [= <-];
    apply Forall_forall; intros m Hm; apply list_elem_of_In, in_map_iff in Hm;
    destruct Hm as (x & <- & _); apply only_popen_item.
Qed.

Lemma only_popen_find_codesign_identity mobileprovision :
  only_popen (_find_codesign_identity mobileprovision).
Proof.
  intros w. unfold _find_codesign_identity.
  rewrite trace_bind. apply Forall_app. split; [apply only_popen_parse|].
  destruct (result (_parse_mobileprovision_file mobileprovision) w) as [mpf| |];
    try constructor.
  rewrite trace_bind. apply Forall_app. split; [apply only_popen_identities|].
  destruct (result _find_codesign_identities w) as [ids| |]; try constructor.
  rewrite trace_bind, get_identities_silent. cbn [app].
  destruct (result (_get_identities_from_provisioning_profile mpf) w)
    as [identities| |] eqn:Hgen; try constructor.
  apply only_popen_first_member. eapply get_identities_items. eassumption.
Qed.

(** * [main] *)

Lemma os_execve_trace {A} path argv w :
  trace (@os_execve A path argv) w = [Execve path argv (os_environ w)].
Proof.
  unfold os_execve. rewrite trace_bind, result_ask, trace_ask. cbn [app].
  rewrite trace_bind, result_emit, trace_emit.
  destruct path as [p|]; [|reflexivity].
  destruct (mapM id argv) as [args|]; [|reflexivity].
  unfold trace, handed_over, raise. destruct (can_exec w p args); reflexivity.
Qed.

Lemma os_execve_result {A} path argv w :
  result (@os_execve A path argv) w =
  match path, mapM id argv with
  | Some p, Some args => if can_exec w p args then Replaced else Raises OSError
  | _, _ => Raises TypeError
  end.
Proof.
  unfold os_execve. rewrite result_bind, result_ask, result_bind, result_emit.
  destruct path as [p|]; [|reflexivity].
  destruct (mapM id argv) as [args|]; [|reflexivity].
  unfold result, handed_over, raise. destruct (can_exec w p args); reflexivity.
Qed.

Lemma os_execve_no_return {A} path argv w (a : A) :
  result (@os_execve A path argv) w <> Returns a.
Proof.
  rewrite os_execve_result.
  destruct path as [p|]; [|discriminate].
  destruct (mapM id argv) as [args|]; [|discriminate].
  destruct (can_exec w p args); discriminate.
Qed.

Section Main.
Variables (w : World) (argv : list str).
Variables (args : Namespace) (codesign_args : list str).
Hypothesis parsed :
  parse_known_args w (tail (sys_argv w)) = inr (args, codesign_args).

Lemma main_result :
  result (main argv) w =
  match identity args with
  | Some override =>
    result (@os_execve Z (codesign args)
              (signing_argv args override codesign_args)) w
  | None =>
    match result (_find_codesign_identity (mobileprovision args)) w with
    | Returns None => Returns 1%Z
    | Returns (Some id) =>
      result (@os_execve Z (codesign args)
                (signing_argv args id codesign_args)) w
    | Raises e => Raises e
    | Replaced => Replaced
    end
  end.
Proof.
  unfold main. rewrite result_bind, result_ask. cbv beta. rewrite parsed.
  rewrite result_bind.
  destruct (identity args) as [override|].
  - rewrite result_ret. reflexivity.
  - destruct (result (_find_codesign_identity (mobileprovision args)) w)
      as [[id|]| |]; reflexivity.
Qed.

Lemma main_trace :
  trace (main argv) w =
  match identity args with
  | Some override =>
    [Execve (codesign args) (signing_argv args override codesign_args)
            (os_environ w)]
  | None =>
    trace (_find_codesign_identity (mobileprovision args)) w ++
    match result (_find_codesign_identity (mobileprovision args)) w with
    | Returns None => [PrintLine (not_found_message (mobileprovision args))]
    | Returns (Some id) =>
      [Execve (codesign args) (signing_argv args id codesign_args)
              (os_environ w)]
    | _ => []
    end
  end.
Proof.
  unfold main. rewrite trace_bind, result_ask, trace_ask. cbv beta.
  rewrite parsed. cbn [app]. rewrite trace_bind.
  destruct (identity args) as [override|].
  - rewrite result_ret, trace_ret. cbn [app]. apply os_execve_trace.
  - destruct (result (_find_codesign_identity (mobileprovision args)) w)
      as [[id|]| |]; try reflexivity.
    f_equal. apply os_execve_trace.
Qed.
End Main.

Lemma main_rejected w argv code :
  parse_known_args w (tail (sys_argv w)) = inl code ->
  main argv w = (Raises (SystemExit code), []).
Proof.
  intros Hparse. unfold main, mbind, M_bind, bind, ask. rewrite Hparse.
  reflexivity.
Qed.

Lemma script_is_main w : script w = main (sys_argv w) w.
Proof.
  unfold script, mbind, M_bind, bind, ask.
  destruct (main (sys_argv w) w) as [o t]. reflexivity.
Qed.

(** * Properties of the resolution *)

Lemma first_in_found host fps x :
  first_in host fps = Some x ->
  exists pre post,
    fps = pre ++ x :: post /\ x ∈ host /\ (forall y, y ∈ pre -> y ∉ host).
Proof.
  induction fps as [|f fps IH]; [discriminate|].
  rewrite first_in_cons. destruct (decide (f ∈ host)) as [Hin|Hout].
  - rewrite bool_decide_eq_true_2 by assumption. intros [= <-].
    exists [], fps. repeat split; [assumption|]. intros y Hy. inversion Hy.
  - rewrite bool_decide_eq_false_2 by assumption. intros Hfound.
    destruct (IH Hfound) as (pre & post & -> & Hx & Hpre).
    exists (f :: pre), post. repeat split; [assumption|].
    intros y Hy. apply elem_of_cons in Hy as [->|Hy]; [assumption|].
    apply Hpre. assumption.
Qed.

Lemma first_in_exists host fps f :
  f ∈ fps -> f ∈ host -> exists x, first_in host fps = Some x.
Proof.
  intros Hf Hhost. destruct (first_in host fps) as [x|] eqn:Hfirst; [eauto|].
  exfalso. induction fps as [|g fps IH]; [inversion Hf|].
  rewrite first_in_cons in Hfirst.
  destruct (decide (g ∈ host)) as [Hin|Hout].
  - rewrite bool_decide_eq_true_2 in Hfirst by assumption. discriminate.
  - rewrite bool_decide_eq_false_2 in Hfirst by assumption.
    apply elem_of_cons in Hf as [->|Hf]; [contradiction|]. apply IH; assumption.
Qed.

(** C1. When some fingerprint of the profile is known to the host, the
    resolver returns the first fingerprint, in the order of the profile's
    certificate list, that belongs to the host set.  The host set [host]
    is given by any listing [ids] of it: the fingerprint returned is fixed
    by the profile order and by membership in the set alone, whatever the
    order of the listing. *)
Theorem resolver_returns_first_match
    (w : World) (mobileprovision : option str) (certs : list bytes)
    (fps ids : list str) (host : gset str) :
  decodes_to w mobileprovision certs ->
  fingerprints_of w certs fps ->
  lists_identities w ids ->
  list_to_set ids = host ->
  (exists f, f ∈ fps /\ f ∈ host) ->
  exists pre x post,
    fps = pre ++ x :: post
    /\ x ∈ host
    /\ (forall y, y ∈ pre -> y ∉ host)
    /\ result (_find_codesign_identity mobileprovision) w = Returns (Some x).
Proof.
  intros Hprofile Hfps Hids <- (f & Hf & Hhost).
  destruct (first_in_exists _ _ _ Hf Hhost) as (x & Hfirst).
  destruct (first_in_found _ _ _ Hfirst) as (pre & post & Heq & Hx & Hpre).
  exists pre, x, post. repeat split; try assumption.
  rewrite (find_codesign_identity_result _ _ _ _ Hprofile Hids).
  rewrite (scan_certs_all _ _ _ _ Hfps). congruence.
Qed.




(** Events that are not calls of [os.execve] leave no trace of one. *)
Lemma no_execve_among_popen t :
  Forall (fun e => is_popen e = true) t -> List.filter is_execve t = [].
Proof.
  induction 1 as [|e t He _ IH]; [reflexivity|].
  simpl. destruct e; try discriminate. exact IH.
Qed.

Lemma main_calls_execve_at_most_once w argv :
  (length (List.filter is_execve (trace (main argv) w)) <= 1)%nat.
Proof.
  destruct (parse_known_args w (tail (sys_argv w))) as [code|[args extras]] eqn:Hparse.
  - unfold trace. rewrite (main_rejected _ _ _ Hparse). simpl. lia.
  - rewrite (main_trace _ _ _ _ Hparse).
    destruct (identity args) as [override|]; [simpl; lia|].
    rewrite List.filter_app, no_execve_among_popen
      by apply only_popen_find_codesign_identity.
    destruct (result (_find_codesign_identity (mobileprovision args)) w)
      as [[id|]| |]; simpl; lia.
Qed.

(** C7. Two runs of the resolver that see the same certificates in the
    same order, with the same fingerprints, and the same set of host
    identities (however each listing is ordered) return the same result:
    the first fingerprint of the profile that the set contains, or [None].
    An invocation selects at most one identity: the result is one optional
    fingerprint and [os.execve] is called at most once. *)
Theorem selection_is_deterministic
    (w1 w2 : World) (mobileprovision1 mobileprovision2 : option str)
    (certs : list bytes) (fps ids1 ids2 : list str) :
  decodes_to w1 mobileprovision1 certs ->
  decodes_to w2 mobileprovision2 certs ->
  fingerprints_of w1 certs fps ->
  fingerprints_of w2 certs fps ->
  lists_identities w1 ids1 ->
  lists_identities w2 ids2 ->
  (list_to_set ids1 : gset str) = list_to_set ids2 ->
  result (_find_codesign_identity mobileprovision1) w1
  = result (_find_codesign_identity mobileprovision2) w2
  /\ result (_find_codesign_identity mobileprovision1) w1
     = Returns (first_in (list_to_set ids1) fps)
  /\ (length (List.filter is_execve (trace script w1)) <= 1)%nat
  /\ (length (List.filter is_execve (trace script w2)) <= 1)%nat.
Proof.
  intros Hp1 Hp2 Hf1 Hf2 Hi1 Hi2 Hset.
  rewrite (find_codesign_identity_result _ _ _ _ Hp1 Hi1).
  rewrite (find_codesign_identity_result _ _ _ _ Hp2 Hi2).
  rewrite (scan_certs_all _ _ _ _ Hf1), (scan_certs_all _ _ _ _ Hf2), Hset.
  repeat split; unfold trace; rewrite script_is_main;
    apply main_calls_execve_at_most_once.
Qed.

(** * Properties of the invocation *)

(** Decoding a profile or fingerprinting a certificate always begins by
    starting a program, so a trace without [Popen] shows that neither was
    called. *)
Lemma parse_starts_program w f :
  exists t,
    trace (_parse_mobileprovision_file f) w
    = Popen ((Some <$> security_cms_argv) ++ [f]) None :: t.
Proof.
  unfold _parse_mobileprovision_file, subprocess_check_output, communicate.
  rewrite !trace_bind, trace_emit. eexists. reflexivity.
Qed.

Lemma fingerprint_starts_program w der :
  exists t,
    trace (_certificate_fingerprint der) w
    = Popen (Some <$> openssl_argv) (Some der) :: t.
Proof. rewrite certificate_fingerprint_trace. eexists. reflexivity. Qed.

(** C3. With [--identity], the only thing the script does is call
    [os.execve] with the binary's path, [-v], [--sign], the override as it
    was given, and the unrecognised arguments: no program is started, so
    the profile is neither decoded nor fingerprinted. *)
Theorem override_skips_resolution
    (w : World) (args : Namespace) (codesign_args : list str) (override : str) :
  parse_known_args w (tail (sys_argv w)) = inr (args, codesign_args) ->
  identity args = Some override ->
  trace script w =
    [Execve (codesign args)
       ([codesign args; Some (lit "-v"); Some (lit "--sign"); Some override]
          ++ map Some codesign_args)
       (os_environ w)]
  /\ Forall (fun e => is_popen e = false) (trace script w).
Proof.
  intros Hparse Hid.
  assert (Htrace : trace script w =
    [Execve (codesign args) (signing_argv args override codesign_args)
       (os_environ w)]).
  { unfold trace. rewrite script_is_main. fold (trace (main (sys_argv w)) w).
    rewrite (main_trace _ _ _ _ Hparse), Hid. reflexivity. }
  split; [exact Htrace|]. rewrite Htrace. repeat constructor.
Qed.

(** C8. Whenever the script calls [os.execve], the argument vector is the
    path of the binary itself, [-v], [--sign], the identity (the override,
    or else the one the resolver returned), then the arguments the parser
    did not recognise, as the parser returned them. *)
Theorem signing_argument_vector
    (w : World) (path : option str) (argv : list (option str))
    (env : list (str * str)) :
  Execve path argv env ∈ trace script w ->
  exists args codesign_args id,
    parse_known_args w (tail (sys_argv w)) = inr (args, codesign_args)
    /\ path = codesign args
    /\ argv = [path; Some (lit "-v"); Some (lit "--sign"); Some id]
              ++ map Some codesign_args
    /\ (identity args = Some id
        \/ identity args = None
           /\ result (_find_codesign_identity (mobileprovision args)) w
              = Returns (Some id)).
Proof.
  unfold trace. rewrite script_is_main. fold (trace (main (sys_argv w)) w).
  destruct (parse_known_args w (tail (sys_argv w)))
    as [code|[args extras]] eqn:Hparse.
  - unfold trace. rewrite (main_rejected _ _ _ Hparse). intros Hin. inversion Hin.
  - rewrite (main_trace _ _ _ _ Hparse).
    destruct (identity args) as [override|] eqn:Hid.
    + intros Hin. apply list_elem_of_singleton in Hin. injection Hin as -> -> ->.
      exists args, extras, override. repeat split. left. exact Hid.
    + intros Hin. apply elem_of_app in Hin as [Hin|Hin].
      * pose proof (only_popen_find_codesign_identity (mobileprovision args) w)
          as Hpopen.
        rewrite Forall_forall in Hpopen. apply Hpopen in Hin. discriminate.
      * destruct (result (_find_codesign_identity (mobileprovision args)) w)
          as [[id|]| |] eqn:Hres; try (inversion Hin; fail).
        -- apply list_elem_of_singleton in Hin. injection Hin as -> -> ->.
           exists args, extras, id. repeat split. right. split; [exact Hid|exact Hres].
        -- apply list_elem_of_singleton in Hin. discriminate.
Qed.

(** C9. An empty [--identity] is an identity like any other: it is not
    [None], so the script neither resolves nor prints and returns 1; it
    calls [os.execve] with an empty string after [--sign]. *)
Theorem empty_override_is_used
    (w : World) (args : Namespace) (codesign_args : list str) :
  parse_known_args w (tail (sys_argv w)) = inr (args, codesign_args) ->
  identity args = Some [] ->
  trace script w =
    [Execve (codesign args)
       ([codesign args; Some (lit "-v"); Some (lit "--sign"); Some []]
          ++ map Some codesign_args)
       (os_environ w)]
  /\ (forall code, result script w <> Returns code).
Proof.
  intros Hparse Hid. split.
  - unfold trace. rewrite script_is_main. fold (trace (main (sys_argv w)) w).
    rewrite (main_trace _ _ _ _ Hparse), Hid. reflexivity.
  - intros code. unfold result. rewrite script_is_main.
    fold (result (main (sys_argv w)) w).
    rewrite (main_result _ _ _ _ Hparse), Hid. apply os_execve_no_return.
Qed.

(** * Properties of the keychain query *)

(** C10. Every identity returned by [_find_codesign_identities] has
    exactly 40 characters, all of them among [0-9A-F]; none is a lowercase
    hexadecimal letter. *)
Theorem identities_are_uppercase_fingerprints (w : World) (ids : list str) :
  lists_identities w ids ->
  Forall (fun id =>
            length id = 40%nat
            /\ (forall c, c ∈ id -> c ∈ upper_hexdigits)
            /\ (forall c, c ∈ id -> c ∉ lower_hex_letters)) ids.
Proof.
  unfold lists_identities. rewrite find_codesign_identities_result.
  destruct (run_process w find_identity_argv None) as [|rc out err]; [discriminate|].
  destruct (decode (strip out)) as [output|]; [|discriminate].
  intros [= <-].
  eapply Forall_impl; [apply collect_fingerprints|].
  intros id [Hlen Hcls]. rewrite Forall_forall in Hcls.
  repeat split; [assumption| |]; intros c Hc.
  - apply in_class_upper_hexdigits, Hcls, Hc.
  - apply upper_not_lower, in_class_upper_hexdigits, Hcls, Hc.
Qed.

(** C5, as the code has it.  A line yields the first 40 characters of its
    first maximal run of characters of [A-F0-9] that is at least 40 long,
    and nothing when it has no such run.  So a run of exactly 40 is
    yielded whole, a shorter one is passed over, a longer one is matched
    and cut to its first 40 characters, and lowercase digits never count. *)
Theorem scan_yields_head_of_first_long_run (line : str) :
  re_search_fingerprint line
  = take 40 <$> List.find (fun r => (40 <=? length r)%nat) (hex_runs line).
Proof. apply search_runs. lia. Qed.

(** * Properties of the fingerprint extractor *)

Lemma elem_of_join c sep groups :
  c ∈ join sep groups -> c ∈ sep \/ exists g, g ∈ groups /\ c ∈ g.
Proof.
  induction groups as [|g gs IH]; [intros H; inversion H|].
  destruct gs as [|g' gs'].
  - simpl. intros Hc. right. exists g. split; [left|assumption].
  - change (join sep (g :: g' :: gs')) with (g ++ sep ++ join sep (g' :: gs')).
    rewrite !elem_of_app. intros [Hc|[Hc|Hc]].
    + right. exists g. split; [left|assumption].
    + left. assumption.
    + destruct (IH Hc) as [Hsep|(g0 & Hg0 & Hc0)]; [left; assumption|].
      right. exists g0. split; [right|]; assumption.
Qed.

Lemma elem_of_concat_groups (c : N) (groups : list str) :
  c ∈ concat groups -> exists g, g ∈ groups /\ c ∈ g.
Proof.
  induction groups as [|g gs IH]; [intros H; inversion H|].
  simpl. rewrite elem_of_app. intros [Hc|Hc].
  - exists g. split; [left|assumption].
  - destruct (IH Hc) as (g0 & Hg0 & Hc0). exists g0. split; [right|]; assumption.
Qed.

Section FingerprintLine.
Variable groups : list str.
Hypothesis hex : Forall (Forall (fun c => c ∈ hexdigits)) groups.

Lemma hex_of g : g ∈ groups -> forall c, c ∈ g -> c ∈ hexdigits.
Proof.
  intros Hg. rewrite Forall_forall in hex. apply hex in Hg.
  rewrite Forall_forall in Hg. exact Hg.
Qed.

Lemma groups_without_colon : Forall (fun g => 58 ∉ g) groups.
Proof.
  apply Forall_forall. intros g Hg Hc.
  apply (hexdigit_not_colon 58); [eapply hex_of; eassumption|left].
Qed.

Lemma joined_without_S : 83 ∉ join colon groups.
Proof.
  intros Hc. apply elem_of_join in Hc as [Hc|(g & Hg & Hc)].
  - unfold colon in Hc. cbn in Hc. apply list_elem_of_singleton in Hc.
    discriminate.
  - eapply hexdigit_not_S; [eapply hex_of; eassumption|reflexivity].
Qed.

Lemma concat_without_S : 83 ∉ concat groups.
Proof.
  intros Hc. apply elem_of_concat_groups in Hc as (g & Hg & Hc).
  eapply hexdigit_not_S; [eapply hex_of; eassumption|reflexivity].
Qed.

Lemma concat_without_colon : 58 ∉ concat groups.
Proof.
  intros Hc. apply elem_of_concat_groups in Hc as (g & Hg & Hc).
  apply (hexdigit_not_colon 58); [eapply hex_of; eassumption|left].
Qed.

Lemma normalize_line :
  normalize (fingerprint_label ++ join colon groups) = concat groups.
Proof.
  unfold normalize.
  change fingerprint_label with (83 :: lit "HA1 Fingerprint=").
  rewrite replace_head, (replace_absent 83) by apply joined_without_S.
  cbn [app]. change colon with [58].
  apply replace_char_join, groups_without_colon.
Qed.

Lemma normalize_fixed : normalize (concat groups) = concat groups.
Proof.
  unfold normalize.
  change fingerprint_label with (83 :: lit "HA1 Fingerprint=").
  rewrite (replace_absent 83) by apply concat_without_S.
  change colon with [58]. apply replace_absent, concat_without_colon.
Qed.
End FingerprintLine.

(** C6. For a line of the form [SHA1 Fingerprint=AA:BB:...:FF], groups of
    hexadecimal digits of either case separated by colons, that the
    fingerprinting utility prints (surrounding whitespace aside), the
    extractor returns the groups concatenated: label and colons removed,
    every digit as it was.  Normalising that result again changes nothing. *)
Theorem fingerprint_normalization (groups : list str) :
  Forall (Forall (fun c => c ∈ hexdigits)) groups ->
  let line := fingerprint_label ++ join colon groups in
  replace colon [] (replace fingerprint_label [] line) = concat groups
  /\ replace colon [] (replace fingerprint_label [] (concat groups))
     = concat groups
  /\ forall (w : World) (der : bytes) returncode stdout stderr,
       run_process w openssl_argv (Some der) = Exited returncode stdout stderr ->
       decode (strip stdout) = Some line ->
       result (_certificate_fingerprint der) w = Returns (concat groups).
Proof.
  intros Hhex line.
  pose proof (normalize_line groups Hhex) as Hline.
  pose proof (normalize_fixed groups Hhex) as Hfixed.
  repeat split; [exact Hline|exact Hfixed|].
  intros w der rc out err Hrun Hdecode.
  rewrite certificate_fingerprint_result, Hrun. unfold normalized.
  rewrite Hdecode. f_equal. exact Hline.
Qed.

(** Outside such lines the two replacements need not be idempotent: the
    colons removed by the second may complete a label for the first. *)
Remark normalize_twice_differs :
  normalize (lit "SHA1 Finger:print=AB") = lit "SHA1 Fingerprint=AB"
  /\ normalize (lit "SHA1 Fingerprint=AB") = lit "AB".
Proof. split; reflexivity. Qed.

(** C4, as the code has it.  The resolver reaches a certificate [der]
    after certificates whose fingerprints the host does not know.
    - If the fingerprinting utility cannot be started, [OSError] leaves the
      resolver: nothing catches it.
    - If its output is not UTF-8, [UnicodeDecodeError] leaves the resolver.
    - If it runs and prints nothing on standard output, as it does when it
      rejects the certificate, its exit status is not looked at: the
      fingerprint is the empty string, which the host never lists, and the
      resolver goes on with the remaining certificates. *)
Theorem fingerprint_failure_modes
    (w : World) (mobileprovision : option str)
    (cpre : list bytes) (der : bytes) (cpost : list bytes)
    (fpre ids : list str) :
  decodes_to w mobileprovision (cpre ++ der :: cpost) ->
  lists_identities w ids ->
  fingerprints_of w cpre fpre ->
  (forall f, f ∈ fpre -> f ∉ ids) ->
  (run_process w openssl_argv (Some der) = NotStarted ->
   result (_find_codesign_identity mobileprovision) w = Raises OSError)
  /\ (forall returncode stdout stderr,
        run_process w openssl_argv (Some der)
        = Exited returncode stdout stderr ->
        decode (strip stdout) = None ->
        result (_find_codesign_identity mobileprovision) w
        = Raises UnicodeDecodeError)
  /\ (forall returncode stderr fpost,
        run_process w openssl_argv (Some der) = Exited returncode [] stderr ->
        fingerprints_of w cpost fpost ->
        result (_find_codesign_identity mobileprovision) w
        = Returns (first_in (list_to_set ids) fpost)).
Proof.
  intros Hprofile Hids Hfpre Hout.
  rewrite (find_codesign_identity_result _ _ _ _ Hprofile Hids).
  rewrite (scan_certs_skip _ _ _ _ _ Hfpre)
    by (intros f Hf; rewrite elem_of_list_to_set; apply Hout, Hf).
  rewrite scan_certs_cons_result, certificate_fingerprint_result.
  repeat split.
  - intros ->. reflexivity.
  - intros rc out err -> Hdecode. unfold normalized. rewrite Hdecode. reflexivity.
  - intros rc err fpost -> Hfpost.
    change (normalized []) with (Returns (A:=str) []). cbv beta iota.
    rewrite bool_decide_eq_false_2.
    + apply scan_certs_all. assumption.
    + rewrite elem_of_list_to_set.
      eapply find_codesign_identities_nonempty. exact Hids.
Qed.

(** * The properties on the example hosts *)

Ltac run := vm_compute; reflexivity.

Ltac profile_decodes :=
  exists {[ lit "DeveloperCertificates" :=
              PlArray [PlData Scenario.cert_x; PlData Scenario.cert_y] ]};
  split; run.

Ltac has_fingerprints :=
  unfold fingerprints_of; repeat (constructor; [run|]); constructor.

Ltac member :=
  match goal with
  | |- ?P => apply (@bool_decide_unpack P _); vm_compute; exact I
  end.

Lemma resolver_returns_first_match_witness :
  let host : gset str := list_to_set [Scenario.fp_y; Scenario.fp_x] in
  exists pre x post,
    [Scenario.fp_x; Scenario.fp_y] = pre ++ x :: post
    /\ x ∈ host
    /\ (forall y, y ∈ pre -> y ∉ host)
    /\ result (_find_codesign_identity (Some Scenario.profile_path))
              Scenario.both_known
       = Returns (Some x).
Proof.
  intros host.
  apply (resolver_returns_first_match Scenario.both_known
           (Some Scenario.profile_path)
           [Scenario.cert_x; Scenario.cert_y]
           [Scenario.fp_x; Scenario.fp_y]
           [Scenario.fp_y; Scenario.fp_x] host).
  - profile_decodes.
  - has_fingerprints.
  - run.
  - reflexivity.
  - exists Scenario.fp_x. split; [left|member].
Defined.


Lemma selection_is_deterministic_witness :
  result (_find_codesign_identity (Some Scenario.profile_path))
         Scenario.both_known
  = result (_find_codesign_identity (Some Scenario.profile_path))
           Scenario.both_known_reordered
  /\ result (_find_codesign_identity (Some Scenario.profile_path))
            Scenario.both_known
     = Returns (first_in (list_to_set [Scenario.fp_y; Scenario.fp_x])
                         [Scenario.fp_x; Scenario.fp_y])
  /\ (length (List.filter is_execve (trace script Scenario.both_known)) <= 1)%nat
  /\ (length (List.filter is_execve
                (trace script Scenario.both_known_reordered)) <= 1)%nat.
Proof.
  apply (selection_is_deterministic Scenario.both_known
           Scenario.both_known_reordered
           (Some Scenario.profile_path) (Some Scenario.profile_path)
           [Scenario.cert_x; Scenario.cert_y]
           [Scenario.fp_x; Scenario.fp_y]
           [Scenario.fp_y; Scenario.fp_x]
           [Scenario.fp_x; Scenario.fp_y]).
  - profile_decodes.
  - profile_decodes.
  - has_fingerprints.
  - has_fingerprints.
  - run.
  - run.
  - run.
Defined.

Lemma override_skips_resolution_witness :
  let w := Scenario.with_override in
  let args := Scenario.override_options "iPhone Developer: Jane Doe (ABCDE12345)" in
  trace script w =
    [Execve (codesign args)
       ([codesign args; Some (lit "-v"); Some (lit "--sign");
         Some (lit "iPhone Developer: Jane Doe (ABCDE12345)")]
          ++ map Some (map lit ["--force"; "Payload/App.app"]))
       (os_environ w)]
  /\ Forall (fun e => is_popen e = false) (trace script w).
Proof.
  intros w args.
  apply (override_skips_resolution w args
           (map lit ["--force"; "Payload/App.app"])
           (lit "iPhone Developer: Jane Doe (ABCDE12345)")).
  - run.
  - reflexivity.
Defined.

Lemma signing_argument_vector_witness :
  exists args codesign_args id,
    parse_known_args Scenario.second_known
      (tail (sys_argv Scenario.second_known)) = inr (args, codesign_args)
    /\ Some (lit "/usr/bin/codesign") = codesign args
    /\ [Some (lit "/usr/bin/codesign"); Some (lit "-v"); Some (lit "--sign");
        Some Scenario.fp_y; Some (lit "--force");
        Some (lit "--timestamp=none"); Some (lit "Payload/App.app")]
       = [Some (lit "/usr/bin/codesign"); Some (lit "-v"); Some (lit "--sign");
          Some id] ++ map Some codesign_args
    /\ (identity args = Some id
        \/ identity args = None
           /\ result (_find_codesign_identity (mobileprovision args))
                     Scenario.second_known
              = Returns (Some id)).
Proof.
  apply (signing_argument_vector Scenario.second_known
           (Some (lit "/usr/bin/codesign"))
           [Some (lit "/usr/bin/codesign"); Some (lit "-v"); Some (lit "--sign");
            Some Scenario.fp_y; Some (lit "--force");
            Some (lit "--timestamp=none"); Some (lit "Payload/App.app")]
           (os_environ Scenario.second_known)).
  apply list_elem_of_In. vm_compute.
  repeat first [left; reflexivity | right].
Defined.

Lemma empty_override_is_used_witness :
  let w := Scenario.with_empty_override in
  let args := Scenario.override_options "" in
  trace script w =
    [Execve (codesign args)
       ([codesign args; Some (lit "-v"); Some (lit "--sign"); Some []]
          ++ map Some (map lit ["--force"; "Payload/App.app"]))
       (os_environ w)]
  /\ (forall code, result script w <> Returns code).
Proof.
  intros w args.
  apply (empty_override_is_used w args (map lit ["--force"; "Payload/App.app"])).
  - run.
  - reflexivity.
Defined.

Lemma identities_are_uppercase_fingerprints_witness :
  Forall (fun id =>
            length id = 40%nat
            /\ (forall c, c ∈ id -> c ∈ upper_hexdigits)
            /\ (forall c, c ∈ id -> c ∉ lower_hex_letters))
         [Scenario.fp_y; Scenario.fp_x].
Proof.
  apply (identities_are_uppercase_fingerprints Scenario.both_known).
  run.
Defined.

Lemma fingerprint_normalization_witness :
  Forall (Forall (fun c => c ∈ hexdigits)) Scenario.groups_x
  /\ result (_certificate_fingerprint Scenario.cert_x) Scenario.second_known
     = Returns Scenario.fp_x
  /\ replace colon [] (replace fingerprint_label [] Scenario.fp_x)
     = Scenario.fp_x.
Proof.
  assert (Hhex : Forall (Forall (fun c => c ∈ hexdigits)) Scenario.groups_x)
    by member.
  destruct (fingerprint_normalization Scenario.groups_x Hhex)
    as (_ & Hfixed & Hextract).
  split; [exact Hhex|]. split; [|exact Hfixed].
  apply (Hextract Scenario.second_known Scenario.cert_x 0%Z
           Scenario.openssl_x []); run.
Defined.

Lemma fingerprint_failure_modes_witness :
  result (_find_codesign_identity (Some Scenario.profile_path))
         Scenario.no_openssl = Raises OSError
  /\ result (_find_codesign_identity (Some Scenario.profile_path))
            Scenario.first_malformed
     = Returns (first_in (list_to_set [Scenario.fp_y]) [Scenario.fp_y]).
Proof.
  split.
  - destruct (fingerprint_failure_modes Scenario.no_openssl
                (Some Scenario.profile_path) [] Scenario.cert_x
                [Scenario.cert_y] [] [Scenario.fp_y]) as (Habsent & _ & _).
    + profile_decodes.
    + run.
    + constructor.
    + intros f Hf. inversion Hf.
    + apply Habsent. run.
  - destruct (fingerprint_failure_modes Scenario.first_malformed
                (Some Scenario.profile_path) [] Scenario.cert_x
                [Scenario.cert_y] [] [Scenario.fp_y]) as (_ & _ & Hskipped).
    + profile_decodes.
    + run.
    + constructor.
    + intros f Hf. inversion Hf.
    + apply (Hskipped 1%Z (blit "unable to load certificate")
               [Scenario.fp_y]); [run|has_fingerprints].
Defined.

(** * Where the code departs from the stated properties *)

(** Against C4: on a host where the fingerprinting utility rejects the
    first certificate of the profile (exit status 1, nothing printed), the
    resolver does not abort: it goes on to the second certificate and
    returns its fingerprint. *)
Lemma malformed_certificate_does_not_abort :
  run_process Scenario.first_malformed openssl_argv (Some Scenario.cert_x)
  = Exited 1 [] (blit "unable to load certificate")
  /\ result (_find_codesign_identity (Some Scenario.profile_path))
            Scenario.first_malformed
     = Returns (Some Scenario.fp_y)
  /\ forall e,
       result (_find_codesign_identity (Some Scenario.profile_path))
              Scenario.first_malformed <> Raises e.
Proof.
  assert (Hres : result (_find_codesign_identity (Some Scenario.profile_path))
                        Scenario.first_malformed
                 = Returns (Some Scenario.fp_y)) by run.
  split; [run|]. split; [exact Hres|].
  intros e. rewrite Hres. discriminate.
Qed.


(** Against C5: the only long run of hexadecimal characters of this line
    has 41 characters, no run has 40, and the scan still yields something:
    the first 40 characters of that run. *)
Lemma run_of_41_is_matched :
  Forall (fun r => length r <> 40%nat) (hex_runs Scenario.long_line)
  /\ lit "0F1E2D3C4B5A69788796A5B4C3D2E1F0001122334" ∈ hex_runs Scenario.long_line
  /\ re_search_fingerprint Scenario.long_line
     = Some (lit "0F1E2D3C4B5A69788796A5B4C3D2E1F000112233").
Proof. split; [member|]. split; [member|run]. Qed.

(** A run of 40 lowercase digits is no match. *)
Example lowercase_run_is_not_matched :
  re_search_fingerprint Scenario.lowercase_line = None.
Proof. run. Qed.

(** * Further properties: the profile reader *)

Lemma mapM_id_None {A} (l : list A) : mapM id ((Some <$> l) ++ [None]) = None.
Proof.
  induction l as [|a l IH]; [reflexivity|].
  cbn. cbn in IH. rewrite IH. reflexivity.
Qed.

(** The reader starts [security cms] once, whatever happens next. *)
Lemma parse_trace w f :
  trace (_parse_mobileprovision_file f) w
  = [Popen ((Some <$> security_cms_argv) ++ [f]) None].
Proof.
  unfold trace, _parse_mobileprovision_file, subprocess_check_output,
    communicate, mbind, M_bind, bind, emit, ask, ret, raise.
  destruct (mapM id ((Some <$> security_cms_argv) ++ [f])) as [argv|];
    [|reflexivity].
  destruct (run_process w argv None) as [|rc out err]; [reflexivity|].
  destruct (rc =? 0)%Z; [|reflexivity].
  destruct (readPlist w out); reflexivity.
Qed.

(** Its result, from what [security cms] and [plistlib] do. *)
Lemma parse_result w path :
  result (_parse_mobileprovision_file (Some path)) w =
  match run_process w (security_cms_argv ++ [path]) None with
  | NotStarted => Raises OSError
  | Exited returncode stdout _ =>
    if (returncode =? 0)%Z then
      match readPlist w stdout with
      | Some mpf => Returns mpf
      | None => Raises PlistError
      end
    else Raises (CalledProcessError returncode)
  end.
Proof.
  unfold result, _parse_mobileprovision_file, subprocess_check_output,
    communicate, mbind, M_bind, bind, emit, ask, ret, raise.
  change ((Some <$> security_cms_argv) ++ [Some path])
    with (Some <$> (security_cms_argv ++ [path])).
  rewrite mapM_id_Some.
  destruct (run_process w (security_cms_argv ++ [path]) None) as [|rc out err];
    [reflexivity|].
  destruct (rc =? 0)%Z; [|reflexivity].
  destruct (readPlist w out); reflexivity.
Qed.

Lemma parse_without_path w :
  result (_parse_mobileprovision_file None) w = Raises TypeError.
Proof.
  unfold result, _parse_mobileprovision_file, subprocess_check_output,
    communicate, mbind, M_bind, bind, emit, ask, ret, raise.
  rewrite mapM_id_None. reflexivity.
Qed.

(** The effects of the resolver, step by step: the keychain is queried
    only once the profile is decoded, and certificates are fingerprinted
    only once the keychain has answered. *)
Lemma find_codesign_identity_steps w mobileprovision :
  trace (_find_codesign_identity mobileprovision) w =
  Popen ((Some <$> security_cms_argv) ++ [mobileprovision]) None ::
  match result (_parse_mobileprovision_file mobileprovision) w with
  | Returns mpf =>
    Popen (Some <$> find_identity_argv) None ::
    match result _find_codesign_identities w with
    | Returns ids =>
      match result (_get_identities_from_provisioning_profile mpf) w with
      | Returns identities =>
        trace (first_member (list_to_set ids) identities) w
      | _ => []
      end
    | _ => []
    end
  | _ => []
  end.
Proof.
  unfold _find_codesign_identity.
  rewrite trace_bind, parse_trace. cbn [app]. f_equal.
  destruct (result (_parse_mobileprovision_file mobileprovision) w)
    as [mpf| |]; try reflexivity.
  rewrite trace_bind, find_codesign_identities_trace. cbn [app]. f_equal.
  destruct (result _find_codesign_identities w) as [ids| |]; try reflexivity.
  rewrite trace_bind, get_identities_silent. reflexivity.
Qed.

(** X2. When [security cms] exits with a non-zero status on the profile,
    the resolver raises [CalledProcessError] with that status, and it has
    started nothing else: the keychain is not queried and no certificate
    is fingerprinted. *)
Theorem rejected_profile_stops_resolution
    (w : World) (path : str) (returncode : Z) (stdout stderr : bytes) :
  run_process w (security_cms_argv ++ [path]) None
  = Exited returncode stdout stderr ->
  returncode <> 0%Z ->
  result (_find_codesign_identity (Some path)) w
  = Raises (CalledProcessError returncode)
  /\ trace (_find_codesign_identity (Some path)) w
     = [Popen (Some <$> (security_cms_argv ++ [path])) None].
Proof.
  intros Hrun Hrc.
  assert (Hparse : result (_parse_mobileprovision_file (Some path)) w
                   = Raises (CalledProcessError returncode)).
  { rewrite parse_result, Hrun.
    destruct (returncode =? 0)%Z eqn:Hz; [|reflexivity].
    apply Z.eqb_eq in Hz. contradiction. }
  split.
  - unfold _find_codesign_identity. rewrite result_bind, Hparse. reflexivity.
  - rewrite find_codesign_identity_steps, Hparse. reflexivity.
Qed.

(** X3. A profile that decodes to a dictionary without the
    [DeveloperCertificates] key makes the resolver raise [KeyError], but
    only after the keychain has been queried (the generator looks the key
    up when the loop asks for its first item); no certificate is
    fingerprinted. *)
Theorem missing_certificates_key
    (w : World) (mobileprovision : option str) (entries : gmap str plist)
    (ids : list str) :
  result (_parse_mobileprovision_file mobileprovision) w
  = Returns (PlDict entries) ->
  entries !! lit "DeveloperCertificates" = None ->
  lists_identities w ids ->
  result (_find_codesign_identity mobileprovision) w
  = Raises (KeyError (lit "DeveloperCertificates"))
  /\ trace (_find_codesign_identity mobileprovision) w
     = [Popen ((Some <$> security_cms_argv) ++ [mobileprovision]) None;
        Popen (Some <$> find_identity_argv) None].
Proof.
  intros Hparse Hkey Hids.
  assert (Hgen : result (_get_identities_from_provisioning_profile
                           (PlDict entries)) w
                 = Raises (KeyError (lit "DeveloperCertificates"))).
  { unfold result, _get_identities_from_provisioning_profile, getitem.
    unfold mbind, M_bind, bind. rewrite Hkey. reflexivity. }
  split.
  - unfold _find_codesign_identity.
    rewrite result_bind, Hparse, result_bind, Hids, result_bind, Hgen.
    reflexivity.
  - rewrite find_codesign_identity_steps, Hparse, Hids, Hgen. reflexivity.
Qed.

(** * Further properties: the loop of the resolver *)

Lemma scan_certs_trace_hit host w cpre fpre der x cpost :
  fingerprints_of w cpre fpre ->
  (forall f, f ∈ fpre -> f ∉ host) ->
  result (_certificate_fingerprint der) w = Returns x ->
  x ∈ host ->
  trace (scan_certs host (cpre ++ der :: cpost)) w
  = openssl_calls (cpre ++ [der]).
Proof.
  induction 1 as [|d f cpre fpre Hf _ IH]; intros Hout Hx Hin.
  - cbn [app]. rewrite scan_certs_cons_trace, Hx, bool_decide_eq_true_2
      by assumption. reflexivity.
  - change ((d :: cpre) ++ der :: cpost) with (d :: (cpre ++ der :: cpost)).
    rewrite scan_certs_cons_trace, Hf, bool_decide_eq_false_2.
    + rewrite IH; [reflexivity| |assumption|assumption].
      intros y Hy. apply Hout. right. assumption.
    + apply Hout. left.
Qed.

(** X1. The resolver is lazy.  When the first certificate whose
    fingerprint the host knows is [der], the programs it starts are, in
    order: [security cms] on the profile, [security find-identity], then
    the fingerprinting utility once for each certificate up to and
    including [der].  The certificates after [der] are never handed to
    it. *)
Theorem resolver_stops_at_first_match
    (w : World) (mobileprovision : option str)
    (cpre : list bytes) (der : bytes) (cpost : list bytes)
    (fpre ids : list str) (x : str) :
  decodes_to w mobileprovision (cpre ++ der :: cpost) ->
  lists_identities w ids ->
  fingerprints_of w cpre fpre ->
  (forall f, f ∈ fpre -> f ∉ ids) ->
  result (_certificate_fingerprint der) w = Returns x ->
  x ∈ ids ->
  result (_find_codesign_identity mobileprovision) w = Returns (Some x)
  /\ trace (_find_codesign_identity mobileprovision) w
     = Popen ((Some <$> security_cms_argv) ++ [mobileprovision]) None
       :: Popen (Some <$> find_identity_argv) None
       :: openssl_calls (cpre ++ [der]).
Proof.
  intros Hprofile Hids Hfpre Hout Hx Hin.
  assert (Hout' : forall f, f ∈ fpre -> f ∉ (list_to_set ids : gset str))
    by (intros f Hf; rewrite elem_of_list_to_set; apply Hout, Hf).
  assert (Hin' : x ∈ (list_to_set ids : gset str))
    by (rewrite elem_of_list_to_set; exact Hin).
  split.
  - rewrite (find_codesign_identity_result _ _ _ _ Hprofile Hids).
    rewrite (scan_certs_skip _ _ _ _ _ Hfpre Hout').
    rewrite scan_certs_cons_result, Hx, bool_decide_eq_true_2 by assumption.
    reflexivity.
  - rewrite (find_codesign_identity_trace _ _ _ _ Hprofile Hids), parse_trace.
    cbn [app]. do 2 f_equal.
    apply (scan_certs_trace_hit _ _ _ _ _ _ _ Hfpre Hout' Hx Hin').
Qed.

(** * Further properties: the keychain query *)

Lemma omap_length_le {A B} (f : A -> option B) (l : list A) :
  (length (omap f l) <= length l)%nat.
Proof.
  induction l as [|a l IH]; [reflexivity|].
  cbn. destruct (f a); cbn in *; lia.
Qed.

(** X5. The keychain query looks at the standard output of
    [security find-identity] only, line by line: each line contributes its
    leftmost fingerprint or nothing, in the order of the lines and with
    repetitions kept, so there are never more identities than lines.  The
    exit status and the standard error play no part. *)
Theorem identities_follow_the_lines
    (w : World) (returncode : Z) (stdout stderr : bytes) (output : str) :
  run_process w find_identity_argv None = Exited returncode stdout stderr ->
  decode (strip stdout) = Some output ->
  lists_identities w (omap re_search_fingerprint (splitlines output))
  /\ (length (omap re_search_fingerprint (splitlines output))
      <= length (splitlines output))%nat.
Proof.
  intros Hrun Hdecode. split; [|apply omap_length_le].
  unfold lists_identities.
  rewrite find_codesign_identities_result, Hrun, Hdecode, collect_omap.
  reflexivity.
Qed.

(** X4. A keychain utility that prints nothing but whitespace, even when
    it exits with a failure status, is taken for an empty keychain: the
    query returns the empty list, and the resolver answers [None] for any
    profile whose certificates can be fingerprinted. *)
Theorem silent_keychain_is_empty
    (w : World) (mobileprovision : option str) (certs : list bytes)
    (fps : list str) (returncode : Z) (stdout stderr : bytes) :
  run_process w find_identity_argv None = Exited returncode stdout stderr ->
  strip stdout = [] ->
  decodes_to w mobileprovision certs ->
  fingerprints_of w certs fps ->
  lists_identities w []
  /\ result (_find_codesign_identity mobileprovision) w = Returns None.
Proof.
  intros Hrun Hstrip Hprofile Hfps.
  assert (Hids : lists_identities w []).
  { unfold lists_identities.
    rewrite find_codesign_identities_result, Hrun, Hstrip. reflexivity. }
  split; [exact Hids|].
  rewrite (find_codesign_identity_result _ _ _ _ Hprofile Hids).
  rewrite (scan_certs_all _ _ _ _ Hfps). f_equal.
  apply first_in_none. intros f _ Hin. inversion Hin.
Qed.

(** * Further properties: what the resolver returns *)

(** What the query lists is made of matches of the pattern. *)
Lemma identities_fingerprints w ids :
  lists_identities w ids ->
  Forall (fun id => length id = 40%nat
                    /\ forall c, c ∈ id -> c ∈ upper_hexdigits) ids.
Proof.
  unfold lists_identities. rewrite find_codesign_identities_result.
  destruct (run_process w find_identity_argv None) as [|rc out err]; [discriminate|].
  destruct (decode (strip out)) as [output|]; [|discriminate].
  intros [= <-].
  eapply Forall_impl; [apply collect_fingerprints|].
  intros id [Hlen Hcls]. rewrite Forall_forall in Hcls.
  split; [assumption|]. intros c Hc.
  apply in_class_upper_hexdigits, Hcls, Hc.
Qed.

Lemma result_bind_returns {A B} (m : M A) (k : A -> M B) w b :
  result (m ≫= k) w = Returns b ->
  exists a, result m w = Returns a /\ result (k a) w = Returns b.
Proof.
  rewrite result_bind. destruct (result m w) as [a| |]; try discriminate.
  intros Hk. exists a. split; [reflexivity|exact Hk].
Qed.

Lemma first_member_found host identities w x :
  result (first_member host identities) w = Returns (Some x) ->
  x ∈ host /\ exists next, next ∈ identities /\ result next w = Returns x.
Proof.
  induction identities as [|next identities IH]; [discriminate|].
  cbn [first_member]. intros Hres.
  apply result_bind_returns in Hres as (f & Hf & Hres).
  destruct (decide (f ∈ host)) as [Hin|Hout].
  - rewrite bool_decide_eq_true_2 in Hres by assumption.
    injection Hres as ->. split; [assumption|].
    exists next. split; [left|assumption].
  - rewrite bool_decide_eq_false_2 in Hres by assumption.
    destruct (IH Hres) as (Hx & next' & Hnext & Hrun).
    split; [assumption|]. exists next'. split; [right|]; assumption.
Qed.

(** X6. Whatever the profile and the host, an identity returned by the
    resolver is one that the keychain query listed, hence 40 characters
    among [0-9A-F], and it is the fingerprint of a certificate found under
    the [DeveloperCertificates] key of the decoded profile. *)
Theorem resolved_identity_is_sound
    (w : World) (mobileprovision : option str) (x : str) :
  result (_find_codesign_identity mobileprovision) w = Returns (Some x) ->
  exists ids mpf certificates items der,
    lists_identities w ids
    /\ x ∈ ids
    /\ length x = 40%nat
    /\ (forall c, c ∈ x -> c ∈ upper_hexdigits)
    /\ result (_parse_mobileprovision_file mobileprovision) w = Returns mpf
    /\ result (getitem mpf (lit "DeveloperCertificates")) w
       = Returns certificates
    /\ result (iter certificates) w = Returns items
    /\ PlData der ∈ items
    /\ result (_certificate_fingerprint der) w = Returns x.
Proof.
  unfold _find_codesign_identity. intros Hres.
  apply result_bind_returns in Hres as (mpf & Hparse & Hres).
  apply result_bind_returns in Hres as (ids & Hids & Hres).
  apply result_bind_returns in Hres as (identities & Hgen & Hres).
  apply first_member_found in Hres as (Hx & next & Hnext & Hrun).
  rewrite elem_of_list_to_set in Hx.
  unfold _get_identities_from_provisioning_profile in Hgen.
  apply result_bind_returns in Hgen as (certificates & Hkey & Hgen).
  apply result_bind_returns in Hgen as (items & Hiter & Hgen).
  rewrite result_ret in Hgen. injection Hgen as <-.
  apply list_elem_of_In, in_map_iff in Hnext as (item & <- & Hitem).
  apply result_bind_returns in Hrun as (data & Hdata & Hfp).
  destruct item as [der| | | |]; try discriminate.
  cbn in Hdata. injection Hdata as <-.
  pose proof (identities_fingerprints w ids Hids) as Hall.
  rewrite Forall_forall in Hall. destruct (Hall x Hx) as (Hlen & Hcls).
  exists ids, mpf, certificates, items, der.
  repeat split; try assumption.
  apply list_elem_of_In. assumption.
Qed.

(** X7. The resolver answers [None] only when it has fingerprinted every
    certificate of the profile and the host knows none of the
    fingerprints: an absence never hides a certificate that was not
    looked at. *)
Theorem absence_means_no_match
    (w : World) (mobileprovision : option str) (certs : list bytes)
    (ids : list str) :
  decodes_to w mobileprovision certs ->
  lists_identities w ids ->
  result (_find_codesign_identity mobileprovision) w = Returns None ->
  exists fps,
    fingerprints_of w certs fps /\ forall f, f ∈ fps -> f ∉ ids.
Proof.
  intros Hprofile Hids.
  rewrite (find_codesign_identity_result _ _ _ _ Hprofile Hids).
  clear Hprofile. induction certs as [|der certs IH].
  - intros _. exists []. split; [constructor|]. intros f Hf. inversion Hf.
  - rewrite scan_certs_cons_result.
    destruct (result (_certificate_fingerprint der) w) as [f| |] eqn:Hf;
      try discriminate.
    destruct (decide (f ∈ (list_to_set ids : gset str))) as [Hin|Hout].
    + rewrite bool_decide_eq_true_2 by assumption. discriminate.
    + rewrite bool_decide_eq_false_2 by assumption. intros Hrest.
      destruct (IH Hrest) as (fps & Hfps & Hnone).
      exists (f :: fps). split; [constructor; assumption|].
      intros y Hy. apply elem_of_cons in Hy as [->|Hy].
      * rewrite elem_of_list_to_set in Hout. exact Hout.
      * apply Hnone, Hy.
Qed.

(** * Further properties: the fingerprint extractor *)

Lemma replace_char_removes a s : a ∉ replace [a] [] s.
Proof.
  unfold replace. induction s as [|c s IH]; [apply not_elem_of_nil|].
  cbn [replace_from is_prefix].
  destruct (a =? c) eqn:Heq; simpl.
  - exact IH.
  - apply not_elem_of_cons. split; [|exact IH].
    apply N.eqb_neq. exact Heq.
Qed.

(** X12. A fingerprint returned by the extractor contains no colon,
    whatever the fingerprinting utility printed. *)
Theorem fingerprint_has_no_colon (w : World) (der : bytes) (fingerprint : str) :
  result (_certificate_fingerprint der) w = Returns fingerprint ->
  forall c, c ∈ colon -> c ∉ fingerprint.
Proof.
  rewrite certificate_fingerprint_result.
  destruct (run_process w openssl_argv (Some der)) as [|rc out err];
    [discriminate|].
  unfold normalized. destruct (decode (strip out)) as [s|]; [|discriminate].
  intros [= <-] c Hc. unfold colon in Hc. cbn in Hc.
  apply list_elem_of_singleton in Hc as ->.
  apply replace_char_removes.
Qed.

(** * Further properties: the invocation *)

Lemma script_result w : result script w = result (main (sys_argv w)) w.
Proof. unfold result. rewrite script_is_main. reflexivity. Qed.

Lemma script_trace w : trace script w = trace (main (sys_argv w)) w.
Proof. unfold trace. rewrite script_is_main. reflexivity. Qed.

(** X8. In every run in which the parser accepts the command line, the
    script first only starts programs, and then does at most one more
    thing, which is its last: it prints one line, or it calls [os.execve]
    with the environment it was started in.  Nothing is ever done after
    the call of [os.execve], and a run never both prints and calls it. *)
Theorem script_trace_shape
    (w : World) (args : Namespace) (codesign_args : list str) :
  parse_known_args w (tail (sys_argv w)) = inr (args, codesign_args) ->
  exists programs last,
    trace script w = programs ++ last
    /\ Forall (fun e => is_popen e = true) programs
    /\ (last = []
        \/ (exists line, last = [PrintLine line])
        \/ (exists path argv, last = [Execve path argv (os_environ w)])).
Proof.
  intros Hparse. rewrite script_trace, (main_trace _ _ _ _ Hparse).
  destruct (identity args) as [override|].
  - exists [], [Execve (codesign args)
                  (signing_argv args override codesign_args) (os_environ w)].
    repeat split; [constructor|]. right. right. eauto.
  - exists (trace (_find_codesign_identity (mobileprovision args)) w).
    eexists. split; [reflexivity|].
    split; [apply only_popen_find_codesign_identity|].
    destruct (result (_find_codesign_identity (mobileprovision args)) w)
      as [[id|]| |]; eauto.
Qed.

(** X9. The script never returns anything but 1, and when it does, no
    [--identity] was given, the resolver answered [None], the last thing
    done was to print the message about the profile, and [os.execve] was
    not called. *)
Theorem script_returns_only_1 (w : World) (code : Z) :
  result script w = Returns code ->
  code = 1%Z
  /\ exists args codesign_args,
       parse_known_args w (tail (sys_argv w)) = inr (args, codesign_args)
       /\ identity args = None
       /\ result (_find_codesign_identity (mobileprovision args)) w
          = Returns None
       /\ trace script w
          = trace (_find_codesign_identity (mobileprovision args)) w
            ++ [PrintLine (not_found_message (mobileprovision args))]
       /\ Forall (fun e => is_execve e = false) (trace script w).
Proof.
  rewrite script_result, script_trace.
  destruct (parse_known_args w (tail (sys_argv w)))
    as [exit|[args extras]] eqn:Hparse.
  - unfold result. rewrite (main_rejected _ _ _ Hparse). discriminate.
  - rewrite (main_result _ _ _ _ Hparse), (main_trace _ _ _ _ Hparse).
    destruct (identity args) as [override|] eqn:Hid.
    + intros Hres. apply os_execve_no_return in Hres. contradiction.
    + destruct (result (_find_codesign_identity (mobileprovision args)) w)
        as [[id|]| |] eqn:Hres; try discriminate.
      * intros Hexec. apply os_execve_no_return in Hexec. contradiction.
      * intros [= <-]. split; [reflexivity|].
        exists args, extras. repeat split; try assumption.
        apply Forall_app. split.
        -- eapply Forall_impl; [apply only_popen_find_codesign_identity|].
           intros [] ?; simpl in *; congruence.
        -- repeat constructor.
Qed.

(** The call of [os.execve] in a run, if any. *)
Lemma script_execve w path argv env :
  Execve path argv env ∈ trace script w ->
  result script w = result (@os_execve Z path argv) w.
Proof.
  rewrite script_result, script_trace.
  destruct (parse_known_args w (tail (sys_argv w)))
    as [code|[args extras]] eqn:Hparse.
  - unfold trace. rewrite (main_rejected _ _ _ Hparse). intros Hin. inversion Hin.
  - rewrite (main_result _ _ _ _ Hparse), (main_trace _ _ _ _ Hparse).
    destruct (identity args) as [override|].
    + intros Hin. apply list_elem_of_singleton in Hin.
      injection Hin as -> -> ->. reflexivity.
    + intros Hin. apply elem_of_app in Hin as [Hin|Hin].
      * pose proof (only_popen_find_codesign_identity (mobileprovision args) w)
          as Hpopen.
        rewrite Forall_forall in Hpopen. apply Hpopen in Hin. discriminate.
      * destruct (result (_find_codesign_identity (mobileprovision args)) w)
          as [[id|]| |]; try (inversion Hin; fail).
        -- apply list_elem_of_singleton in Hin. injection Hin as -> -> ->.
           reflexivity.
        -- apply list_elem_of_singleton in Hin. discriminate.
Qed.

(** X10. The script does not check that [--codesign] was given: when it
    reaches [os.execve] without a path, the call raises [TypeError], which
    nothing catches, and the interpreter exits with status 1. *)
Theorem execve_without_path_raises
    (w : World) (argv : list (option str)) (env : list (str * str)) :
  Execve None argv env ∈ trace script w ->
  result script w = Raises TypeError
  /\ exit_status (result script w) = Some 1%Z.
Proof.
  intros Hin. rewrite (script_execve _ _ _ _ Hin), os_execve_result.
  split; reflexivity.
Qed.

(** X11. With neither [--identity] nor [--mobileprovision], the script
    hands [None] to [security cms] as the file name: starting the program
    raises [TypeError], nothing is printed, the keychain is not queried,
    and the interpreter exits with status 1. *)
Theorem missing_profile_path_raises
    (w : World) (args : Namespace) (codesign_args : list str) :
  parse_known_args w (tail (sys_argv w)) = inr (args, codesign_args) ->
  identity args = None ->
  mobileprovision args = None ->
  result script w = Raises TypeError
  /\ exit_status (result script w) = Some 1%Z
  /\ trace script w = [Popen ((Some <$> security_cms_argv) ++ [None]) None].
Proof.
  intros Hparse Hid Hmp.
  assert (Hres : result (_find_codesign_identity None) w = Raises TypeError).
  { unfold _find_codesign_identity.
    rewrite result_bind, parse_without_path. reflexivity. }
  assert (Htrace : trace (_find_codesign_identity None) w
                   = [Popen ((Some <$> security_cms_argv) ++ [None]) None]).
  { rewrite find_codesign_identity_steps, parse_without_path. reflexivity. }
  rewrite script_result, script_trace.
  rewrite (main_result _ _ _ _ Hparse), (main_trace _ _ _ _ Hparse).
  rewrite Hid, Hmp, Hres, Htrace. repeat split.
Qed.

(** * Further properties: the hand-over *)

Lemma no_handoff_ret {A} (a : A) : no_handoff (ret a).
Proof. intros w. discriminate. Qed.

Lemma no_handoff_raise {A} e : no_handoff (@raise A e).
Proof. intros w. discriminate. Qed.

Lemma no_handoff_ask : no_handoff ask.
Proof. intros w. discriminate. Qed.

Lemma no_handoff_emit e : no_handoff (emit e).
Proof. intros w. discriminate. Qed.

Lemma no_handoff_bind {A B} (m : M A) (k : A -> M B) :
  no_handoff m -> (forall a, no_handoff (k a)) -> no_handoff (m ≫= k).
Proof.
  intros Hm Hk w. rewrite result_bind.
  destruct (result m w) eqn:Hres; [apply Hk|discriminate|].
  exfalso. apply (Hm w). exact Hres.
Qed.

#[local] Hint Resolve no_handoff_ret no_handoff_raise no_handoff_ask
  no_handoff_emit : popen.

Ltac stays :=
  repeat first
    [ solve [auto with popen]
    | apply no_handoff_bind; [|intros ?]
    | match goal with
      | |- no_handoff (match ?x with _ => _ end) => destruct x
      | |- no_handoff (let '(_, _) := ?x in _) => destruct x
      | |- no_handoff (if ?b then _ else _) => destruct b
      end ].

Lemma no_handoff_communicate args input : no_handoff (communicate args input).
Proof. unfold communicate. stays. Qed.

Lemma no_handoff_check_output args input : no_handoff (_check_output args input).
Proof. unfold _check_output. pose proof no_handoff_communicate. stays. Qed.

Lemma no_handoff_subprocess_check_output args :
  no_handoff (subprocess_check_output args).
Proof. unfold subprocess_check_output. pose proof no_handoff_communicate. stays. Qed.

Lemma no_handoff_bytes_decode b : no_handoff (bytes_decode b).
Proof. unfold bytes_decode. stays. Qed.

Lemma no_handoff_parse f : no_handoff (_parse_mobileprovision_file f).
Proof.
  unfold _parse_mobileprovision_file.
  pose proof no_handoff_subprocess_check_output. stays.
Qed.

Lemma no_handoff_fingerprint der : no_handoff (_certificate_fingerprint der).
Proof.
  unfold _certificate_fingerprint.
  pose proof no_handoff_check_output. pose proof no_handoff_bytes_decode. stays.
Qed.

Lemma no_handoff_identities : no_handoff _find_codesign_identities.
Proof.
  unfold _find_codesign_identities.
  pose proof no_handoff_check_output. pose proof no_handoff_bytes_decode. stays.
Qed.

Lemma no_handoff_item identity :
  no_handoff (data ← get_data identity; _certificate_fingerprint data).
Proof. pose proof no_handoff_fingerprint. unfold get_data. stays. Qed.

Lemma no_handoff_first_member host identities :
  Forall no_handoff identities -> no_handoff (first_member host identities).
Proof.
  induction 1 as [|next identities Hnext _ IH]; simpl; stays.
Qed.

Lemma no_handoff_get_identities mpf :
  no_handoff (_get_identities_from_provisioning_profile mpf).
Proof.
  unfold _get_identities_from_provisioning_profile, getitem, iter. stays.
Qed.

Lemma get_identities_no_handoff mpf w identities :
  result (_get_identities_from_provisioning_profile mpf) w = Returns identities ->
  Forall no_handoff identities.
Proof.
  unfold _get_identities_from_provisioning_profile. intros Hres.
  apply result_bind_returns in Hres as (certificates & _ & Hres).
  apply result_bind_returns in Hres as (items & _ & Hres).
  rewrite result_ret in Hres. injection Hres as <-.
  apply Forall_forall. intros m Hm.
  apply list_elem_of_In, in_map_iff in Hm as (x & <- & _).
  apply no_handoff_item.
Qed.

(** The resolver never replaces the process. *)
Lemma no_handoff_find_codesign_identity mobileprovision :
  no_handoff (_find_codesign_identity mobileprovision).
Proof.
  intros w. unfold _find_codesign_identity. rewrite result_bind.
  destruct (result (_parse_mobileprovision_file mobileprovision) w)
    as [mpf| |] eqn:Hparse; [|discriminate|intros _; exact (no_handoff_parse _ _ Hparse)].
  rewrite result_bind.
  destruct (result _find_codesign_identities w) as [ids| |] eqn:Hids;
    [|discriminate|intros _; exact (no_handoff_identities _ Hids)].
  rewrite result_bind.
  destruct (result (_get_identities_from_provisioning_profile mpf) w)
    as [identities| |] eqn:Hgen;
    [|discriminate|intros _; exact (no_handoff_get_identities _ _ Hgen)].
  apply no_handoff_first_member. eapply get_identities_no_handoff. eassumption.
Qed.

Lemma map_Some_fmap {A} (l : list A) : map Some l = Some <$> l.
Proof. induction l as [|a l IH]; [reflexivity|]. cbn. rewrite IH. reflexivity. Qed.

Lemma signing_argv_strings args p ident extras :
  codesign args = Some p ->
  mapM id (signing_argv args ident extras)
  = Some ([p; lit "-v"; lit "--sign"; ident] ++ extras).
Proof.
  intros Hp. unfold signing_argv. rewrite Hp, map_Some_fmap.
  change ([Some p; Some (lit "-v"); Some (lit "--sign"); Some ident]
            ++ (Some <$> extras))
    with (Some <$> ([p; lit "-v"; lit "--sign"; ident] ++ extras)).
  apply mapM_id_Some.
Qed.

(** X13. The process is replaced only by the binary named by
    [--codesign], only with an identity that was given or resolved, and
    only when the kernel accepts the call; the call of [os.execve] is then
    the last thing the script did. *)
Theorem handoff_only_to_codesign (w : World) :
  result script w = Replaced ->
  exists args codesign_args id path,
    parse_known_args w (tail (sys_argv w)) = inr (args, codesign_args)
    /\ codesign args = Some path
    /\ (identity args = Some id
        \/ identity args = None
           /\ result (_find_codesign_identity (mobileprovision args)) w
              = Returns (Some id))
    /\ can_exec w path ([path; lit "-v"; lit "--sign"; id] ++ codesign_args)
       = true
    /\ last (trace script w)
       = Some (Execve (Some path)
                 (Some <$> [path; lit "-v"; lit "--sign"; id] ++ codesign_args)
                 (os_environ w)).
Proof.
  rewrite script_result, script_trace.
  destruct (parse_known_args w (tail (sys_argv w)))
    as [code|[args extras]] eqn:Hparse.
  { unfold result. rewrite (main_rejected _ _ _ Hparse). discriminate. }
  rewrite (main_result _ _ _ _ Hparse), (main_trace _ _ _ _ Hparse).
  assert (Hexec : forall id,
    result (@os_execve Z (codesign args) (signing_argv args id extras)) w
    = Replaced ->
    exists path,
      codesign args = Some path
      /\ can_exec w path ([path; lit "-v"; lit "--sign"; id] ++ extras) = true
      /\ signing_argv args id extras
         = (Some <$> [path; lit "-v"; lit "--sign"; id] ++ extras)).
  { intros id. rewrite os_execve_result.
    destruct (codesign args) as [p|] eqn:Hp; [|discriminate].
    rewrite (signing_argv_strings _ _ _ _ Hp).
    destruct (can_exec w p ([p; lit "-v"; lit "--sign"; id] ++ extras)) eqn:Hcan;
      [|discriminate].
    intros _. exists p. repeat split; [exact Hcan|].
    unfold signing_argv. rewrite Hp, map_Some_fmap. reflexivity. }
  destruct (identity args) as [override|] eqn:Hid.
  - intros Hres. destruct (Hexec _ Hres) as (p & Hp & Hcan & Hargv).
    exists args, extras, override, p.
    repeat split; try assumption; [left; exact Hid|].
    rewrite Hp, Hargv. reflexivity.
  - destruct (result (_find_codesign_identity (mobileprovision args)) w)
      as [[id|]| |] eqn:Hres; try discriminate.
    + intros Hrun. destruct (Hexec _ Hrun) as (p & Hp & Hcan & Hargv).
      exists args, extras, id, p.
      repeat split; try assumption; [right; split; [exact Hid|exact Hres]|].
      rewrite last_snoc, Hp, Hargv. reflexivity.
    + intros _. exfalso.
      exact (no_handoff_find_codesign_identity _ _ Hres).
Qed.

(** X14. When [security find-identity] cannot be started, [OSError]
    leaves the script uncaught: exit status 1, no message about the
    profile, no certificate fingerprinted and no call of [os.execve]. *)
Theorem keychain_tool_absent
    (w : World) (args : Namespace) (codesign_args : list str) (mpf : plist) :
  parse_known_args w (tail (sys_argv w)) = inr (args, codesign_args) ->
  identity args = None ->
  result (_parse_mobileprovision_file (mobileprovision args)) w = Returns mpf ->
  run_process w find_identity_argv None = NotStarted ->
  result script w = Raises OSError
  /\ exit_status (result script w) = Some 1%Z
  /\ trace script w
     = [Popen ((Some <$> security_cms_argv) ++ [mobileprovision args]) None;
        Popen (Some <$> find_identity_argv) None].
Proof.
  intros Hparse Hid Hmpf Hrun.
  assert (Hids : result _find_codesign_identities w = Raises OSError)
    by (rewrite find_codesign_identities_result, Hrun; reflexivity).
  assert (Hres : result (_find_codesign_identity (mobileprovision args)) w
                 = Raises OSError).
  { unfold _find_codesign_identity.
    rewrite result_bind, Hmpf, result_bind, Hids. reflexivity. }
  rewrite script_result, script_trace.
  rewrite (main_result _ _ _ _ Hparse), (main_trace _ _ _ _ Hparse).
  rewrite Hid, Hres, find_codesign_identity_steps, Hmpf, Hids.
  repeat split.
Qed.

(** * Further properties: the label of the fingerprint line *)

(** X15. The label is removed only in its exact spelling.  When the
    fingerprinting utility prints another label, one without a capital S
    and without colon, before the groups of digits, the extractor keeps
    it in the fingerprint; and as soon as that label has a character
    outside [0-9A-F], the fingerprint matches no identity of the
    keychain. *)
Theorem unexpected_label_is_kept
    (w : World) (der : bytes) (returncode : Z) (stdout stderr : bytes)
    (label : str) (groups ids : list str) :
  run_process w openssl_argv (Some der) = Exited returncode stdout stderr ->
  decode (strip stdout) = Some (label ++ join colon groups) ->
  (forall c, c ∈ lit "S:" -> c ∉ label) ->
  (exists c, c ∈ label /\ c ∉ upper_hexdigits) ->
  Forall (Forall (fun c => c ∈ hexdigits)) groups ->
  lists_identities w ids ->
  result (_certificate_fingerprint der) w = Returns (label ++ concat groups)
  /\ label ++ concat groups ∉ ids.
Proof.
  intros Hrun Hdecode Hlabel (c & Hc & Hout) Hhex Hids.
  assert (HS : 83 ∉ label) by (apply Hlabel; left).
  assert (Hcolon : 58 ∉ label) by (apply Hlabel; right; left).
  split.
  - rewrite certificate_fingerprint_result, Hrun. unfold normalized.
    rewrite Hdecode. f_equal. unfold normalize.
    change fingerprint_label with (83 :: lit "HA1 Fingerprint=").
    rewrite (replace_absent 83).
    + change colon with [58].
      rewrite replace_char_app, (replace_absent 58) by exact Hcolon.
      f_equal. apply replace_char_join, groups_without_colon, Hhex.
    + rewrite elem_of_app. intros [Hl|Hj]; [exact (HS Hl)|].
      exact (joined_without_S groups Hhex Hj).
  - intros Hin.
    pose proof (identities_fingerprints w ids Hids) as Hall.
    rewrite Forall_forall in Hall. destruct (Hall _ Hin) as (_ & Hcls).
    apply Hout, Hcls. rewrite elem_of_app. left. exact Hc.
Qed.

(** * The further properties on the example hosts *)

Lemma resolver_stops_at_first_match_witness :
  result (_find_codesign_identity (Some Scenario.profile_path))
         Scenario.both_known = Returns (Some Scenario.fp_x)
  /\ trace (_find_codesign_identity (Some Scenario.profile_path))
           Scenario.both_known
     = Popen ((Some <$> security_cms_argv) ++ [Some Scenario.profile_path]) None
       :: Popen (Some <$> find_identity_argv) None
       :: openssl_calls ([] ++ [Scenario.cert_x]).
Proof.
  apply (resolver_stops_at_first_match Scenario.both_known
           (Some Scenario.profile_path) [] Scenario.cert_x [Scenario.cert_y]
           [] [Scenario.fp_y; Scenario.fp_x] Scenario.fp_x).
  - profile_decodes.
  - run.
  - constructor.
  - intros f Hf. inversion Hf.
  - run.
  - right. left.
Defined.

Lemma rejected_profile_stops_resolution_witness :
  result (_find_codesign_identity (Some Scenario.profile_path))
         Failing.rejected_profile
  = Raises (CalledProcessError 1)
  /\ trace (_find_codesign_identity (Some Scenario.profile_path))
           Failing.rejected_profile
     = [Popen (Some <$> (security_cms_argv ++ [Scenario.profile_path])) None].
Proof.
  apply (rejected_profile_stops_resolution Failing.rejected_profile
           Scenario.profile_path 1%Z []
           (blit "security: failed to add data to decoder")).
  - run.
  - lia.
Defined.

Lemma missing_certificates_key_witness :
  result (_find_codesign_identity (Some Scenario.profile_path))
         Failing.profile_without_certificates
  = Raises (KeyError (lit "DeveloperCertificates"))
  /\ trace (_find_codesign_identity (Some Scenario.profile_path))
           Failing.profile_without_certificates
     = [Popen ((Some <$> security_cms_argv) ++ [Some Scenario.profile_path]) None;
        Popen (Some <$> find_identity_argv) None].
Proof.
  apply (missing_certificates_key Failing.profile_without_certificates
           (Some Scenario.profile_path) Failing.entries_without_certificates
           [Scenario.fp_y]).
  - run.
  - run.
  - run.
Defined.

Lemma silent_keychain_is_empty_witness :
  lists_identities Failing.silent_keychain []
  /\ result (_find_codesign_identity (Some Scenario.profile_path))
            Failing.silent_keychain = Returns None.
Proof.
  apply (silent_keychain_is_empty Failing.silent_keychain
           (Some Scenario.profile_path) [Scenario.cert_x; Scenario.cert_y]
           [Scenario.fp_x; Scenario.fp_y] 1%Z []
           (blit "security: SecKeychainCopyDefault failed")).
  - run.
  - run.
  - profile_decodes.
  - has_fingerprints.
Defined.

Lemma identities_follow_the_lines_witness :
  lists_identities Scenario.both_known [Scenario.fp_y; Scenario.fp_x]
  /\ (2 <= 3)%nat.
Proof.
  destruct (identities_follow_the_lines Scenario.both_known 0%Z
              Scenario.listing_xy []
              (default [] (decode (strip Scenario.listing_xy))))
    as [Hids Hlen]; [run|run|].
  split; [exact Hids|].
  vm_compute in Hlen. exact Hlen.
Defined.

Lemma resolved_identity_is_sound_witness :
  exists ids mpf certificates items der,
    lists_identities Scenario.second_known ids
    /\ Scenario.fp_y ∈ ids
    /\ length Scenario.fp_y = 40%nat
    /\ (forall c, c ∈ Scenario.fp_y -> c ∈ upper_hexdigits)
    /\ result (_parse_mobileprovision_file (Some Scenario.profile_path))
              Scenario.second_known = Returns mpf
    /\ result (getitem mpf (lit "DeveloperCertificates")) Scenario.second_known
       = Returns certificates
    /\ result (iter certificates) Scenario.second_known = Returns items
    /\ PlData der ∈ items
    /\ result (_certificate_fingerprint der) Scenario.second_known
       = Returns Scenario.fp_y.
Proof.
  apply (resolved_identity_is_sound Scenario.second_known
           (Some Scenario.profile_path) Scenario.fp_y).
  run.
Defined.

Lemma absence_means_no_match_witness :
  exists fps,
    fingerprints_of Scenario.none_known [Scenario.cert_x; Scenario.cert_y] fps
    /\ forall f, f ∈ fps -> f ∉ ([] : list str).
Proof.
  apply (absence_means_no_match Scenario.none_known
           (Some Scenario.profile_path)).
  - profile_decodes.
  - run.
  - run.
Defined.

Lemma fingerprint_has_no_colon_witness :
  result (_certificate_fingerprint Scenario.cert_x) Scenario.second_known
  = Returns Scenario.fp_x
  /\ Forall (fun c => c ∉ Scenario.fp_x) colon.
Proof.
  assert (Hrun : result (_certificate_fingerprint Scenario.cert_x)
                        Scenario.second_known = Returns Scenario.fp_x) by run.
  split; [exact Hrun|]. apply Forall_forall.
  exact (fingerprint_has_no_colon Scenario.second_known Scenario.cert_x
           Scenario.fp_x Hrun).
Defined.

Lemma script_trace_shape_witness :
  exists programs last,
    trace script Scenario.second_known = programs ++ last
    /\ Forall (fun e => is_popen e = true) programs
    /\ (last = []
        \/ (exists line, last = [PrintLine line])
        \/ (exists path argv,
              last = [Execve path argv (os_environ Scenario.second_known)])).
Proof.
  apply (script_trace_shape Scenario.second_known Scenario.resolve_options
           (map lit ["--force"; "--timestamp=none"; "Payload/App.app"])).
  run.
Defined.

Lemma script_returns_only_1_witness :
  1%Z = 1%Z
  /\ exists args codesign_args,
       parse_known_args Scenario.none_known
         (tail (sys_argv Scenario.none_known)) = inr (args, codesign_args)
       /\ identity args = None
       /\ result (_find_codesign_identity (mobileprovision args))
                 Scenario.none_known = Returns None
       /\ trace script Scenario.none_known
          = trace (_find_codesign_identity (mobileprovision args))
                  Scenario.none_known
            ++ [PrintLine (not_found_message (mobileprovision args))]
       /\ Forall (fun e => is_execve e = false)
                 (trace script Scenario.none_known).
Proof.
  apply (script_returns_only_1 Scenario.none_known 1%Z).
  run.
Defined.

Lemma execve_without_path_raises_witness :
  result script Failing.no_codesign_option = Raises TypeError
  /\ exit_status (result script Failing.no_codesign_option) = Some 1%Z.
Proof.
  apply (execve_without_path_raises Failing.no_codesign_option
           [None; Some (lit "-v"); Some (lit "--sign"); Some (lit "Jane Doe");
            Some (lit "--force")]
           (os_environ Failing.no_codesign_option)).
  apply list_elem_of_In. vm_compute. left. reflexivity.
Defined.

Lemma missing_profile_path_raises_witness :
  result script Failing.no_profile_option = Raises TypeError
  /\ exit_status (result script Failing.no_profile_option) = Some 1%Z
  /\ trace script Failing.no_profile_option
     = [Popen ((Some <$> security_cms_argv) ++ [None]) None].
Proof.
  apply (missing_profile_path_raises Failing.no_profile_option
           {| mobileprovision := None;
              codesign := Some (lit "/usr/bin/codesign");
              identity := None |} []).
  - run.
  - reflexivity.
  - reflexivity.
Defined.

Lemma handoff_only_to_codesign_witness :
  exists args codesign_args id path,
    parse_known_args Scenario.second_known
      (tail (sys_argv Scenario.second_known)) = inr (args, codesign_args)
    /\ codesign args = Some path
    /\ (identity args = Some id
        \/ identity args = None
           /\ result (_find_codesign_identity (mobileprovision args))
                     Scenario.second_known = Returns (Some id))
    /\ can_exec Scenario.second_known path
         ([path; lit "-v"; lit "--sign"; id] ++ codesign_args) = true
    /\ last (trace script Scenario.second_known)
       = Some (Execve (Some path)
                 (Some <$> [path; lit "-v"; lit "--sign"; id] ++ codesign_args)
                 (os_environ Scenario.second_known)).
Proof.
  apply (handoff_only_to_codesign Scenario.second_known).
  run.
Defined.

Lemma keychain_tool_absent_witness :
  result script Failing.no_keychain_tool = Raises OSError
  /\ exit_status (result script Failing.no_keychain_tool) = Some 1%Z
  /\ trace script Failing.no_keychain_tool
     = [Popen ((Some <$> security_cms_argv) ++ [Some Scenario.profile_path]) None;
        Popen (Some <$> find_identity_argv) None].
Proof.
  apply (keychain_tool_absent Failing.no_keychain_tool
           Scenario.resolve_options
           (map lit ["--force"; "--timestamp=none"; "Payload/App.app"])
           Scenario.profile).
  - run.
  - reflexivity.
  - run.
  - run.
Defined.

Lemma unexpected_label_is_kept_witness :
  result (_certificate_fingerprint Scenario.cert_x) Failing.relabelled_openssl
  = Returns (Failing.lowercase_label ++ concat Scenario.groups_x)
  /\ Failing.lowercase_label ++ concat Scenario.groups_x
     ∉ [Scenario.fp_y; Scenario.fp_x].
Proof.
  apply (unexpected_label_is_kept Failing.relabelled_openssl Scenario.cert_x
           0%Z
           (blit "sha1 Fingerprint=A1:B2:C3:D4:E5:F6:07:18:29:3A:4B:5C:6D:7E:8F:90:01:12:23:34"
            ++ Scenario.newline) []).
  - run.
  - run.
  - intros c Hc. cbn in Hc. rewrite !elem_of_cons, elem_of_nil in Hc.
    destruct Hc as [->|[->|[]]]; member.
  - exists 115. split; member.
  - member.
  - run.
Defined.
